(** * passw: the deterministic password generator of [src/utils/pass-generator.ts]

    A shallow embedding of the derivation pipeline
    (salt -> PBKDF2 -> character mapping -> keyed Fisher-Yates shuffle)
    and the properties of it that the specification states.

    Conventions of the embedding.
    - A JavaScript string is the list of its UTF-16 code units ([jsstring]).
    - A [Uint8Array] is a list of [byte]s.
    - [length], [iterations] and the rotation [number] range over the
      integers ([Z]); fractional and non-finite JavaScript numbers are outside
      the model.
    - The host supplies [String.prototype.normalize], [String(number)] and
      the Web Crypto provider; they are fields of the record [Host].  The
      provider's functions are the mathematical functions SHA-256,
      HMAC-SHA-256 and PBKDF2; the checks Web Crypto makes on the arguments
      are written out where the source makes the call.
    - Two ranges are not covered, and every statement that promises an
      outcome stays inside them: a bit length of [2^32] or more, which
      [deriveBits] would take modulo [2^32] (reached from [length = 2^28]
      on), and an empty HMAC key, which [importKey] would reject.  Host
      resource limits (largest string, largest buffer) are outside the model
      as well.
    - [async] functions are run sequentially in a state-and-exception monad
      whose state is the log of the calls made to the provider. *)

From Stdlib Require Import ZArith Ascii String DecimalString.
From Stdlib.Strings Require Import Byte.
From stdpp Require Import base tactics option list sets gmap.

Open Scope Z_scope.

(** ** Strings and bytes *)

Abbreviation jsstring := (list Z) (only parsing).
Abbreviation bytes := (list byte) (only parsing).

(** A literal of the source, as code units. *)
Definition js (s : string) : jsstring :=
  (fun a => Z.of_N (N_of_ascii a)) <$> list_ascii_of_string s.

Definition byte_of_Z (z : Z) : byte :=
  default x00 (Byte.of_N (Z.to_N (z mod 256))).

Definition Z_of_byte (b : byte) : Z := Z.of_N (Byte.to_N b).

(** [TextEncoder.prototype.encode]: the string is read as scalar values (a
    well-formed surrogate pair is one code point, a lone surrogate becomes
    U+FFFD) and written out in UTF-8. *)
Definition is_high_surrogate (c : Z) : bool := (0xD800 <=? c) && (c <=? 0xDBFF).
Definition is_low_surrogate (c : Z) : bool := (0xDC00 <=? c) && (c <=? 0xDFFF).

Fixpoint scalar_values (s : jsstring) : list Z :=
  match s with
  | [] => []
  | c :: rest =>
      if is_high_surrogate c then
        match rest with
        | d :: rest' =>
            if is_low_surrogate d
            then (0x10000 + (c - 0xD800) * 0x400 + (d - 0xDC00)) :: scalar_values rest'
            else 0xFFFD :: scalar_values rest
        | [] => [0xFFFD]
        end
      else if is_low_surrogate c then 0xFFFD :: scalar_values rest
      else c :: scalar_values rest
  end.

Definition utf8 (cp : Z) : bytes :=
  if cp <? 0x80 then [byte_of_Z cp]
  else if cp <? 0x800 then
    [byte_of_Z (Z.lor 0xC0 (Z.shiftr cp 6));
     byte_of_Z (Z.lor 0x80 (Z.land cp 0x3F))]
  else if cp <? 0x10000 then
    [byte_of_Z (Z.lor 0xE0 (Z.shiftr cp 12));
     byte_of_Z (Z.lor 0x80 (Z.land (Z.shiftr cp 6) 0x3F));
     byte_of_Z (Z.lor 0x80 (Z.land cp 0x3F))]
  else
    [byte_of_Z (Z.lor 0xF0 (Z.shiftr cp 18));
     byte_of_Z (Z.lor 0x80 (Z.land (Z.shiftr cp 12) 0x3F));
     byte_of_Z (Z.lor 0x80 (Z.land (Z.shiftr cp 6) 0x3F));
     byte_of_Z (Z.lor 0x80 (Z.land cp 0x3F))].

(** [const enc = new TextEncoder();] and [enc.encode(s)]. *)
Definition encode (s : jsstring) : bytes := scalar_values s ≫= utf8.

(** [String.prototype.trim]: strips the code points of ECMAScript's
    WhiteSpace and LineTerminator productions from both ends. *)
Definition isWhiteSpace (c : Z) : bool :=
  ((0x0009 <=? c) && (c <=? 0x000D)) || (c =? 0x0020) || (c =? 0x00A0)
  || (c =? 0x1680) || ((0x2000 <=? c) && (c <=? 0x200A))
  || (c =? 0x2028) || (c =? 0x2029) || (c =? 0x202F) || (c =? 0x205F)
  || (c =? 0x3000) || (c =? 0xFEFF).

Fixpoint trimStart (s : jsstring) : jsstring :=
  match s with
  | c :: rest => if isWhiteSpace c then trimStart rest else s
  | [] => []
  end.

Definition trimEnd (s : jsstring) : jsstring := reverse (trimStart (reverse s)).

Definition trim (s : jsstring) : jsstring := trimEnd (trimStart s).

(** ** The host *)

(** The argument of [String.prototype.normalize]. *)
Inductive NormalizationForm := NFC | NFD | NFKC | NFKD.

(** The part of [SubtleCrypto] the generator calls, each with the algorithm
    the source passes.  [importKey] wraps its bytes, so a key is the bytes it
    was imported from; it rejects an empty HMAC key, a case the statements
    about [hmacSha256] exclude by hypothesis.
    - [digest data]: [subtle.digest("SHA-256", data)];
    - [sign key msg]: [subtle.sign("HMAC", key, msg)] for a key imported
      with [{ name: "HMAC", hash: "SHA-256" }];
    - [deriveBits keyMaterial salt iterations bits]: [subtle.deriveBits]
      with [{ name: "PBKDF2", hash: "SHA-256", salt, iterations }]. *)
Record SubtleCrypto := {
  digest : bytes -> bytes;
  sign : bytes -> bytes -> bytes;
  deriveBits : bytes -> bytes -> Z -> Z -> bytes;
}.

(** Output sizes fixed by the algorithms: SHA-256 and HMAC-SHA-256 return
    32 bytes, PBKDF2 returns the requested number of bits, for an iteration
    count and a bit length that are positive 32-bit unsigned numbers. *)
Definition WebCryptoContract (sc : SubtleCrypto) : Prop :=
  (forall data, length (digest sc data) = 32%nat) /\
  (forall key msg, length (sign sc key msg) = 32%nat) /\
  (forall keyMaterial salt iterations bits,
      0 < iterations < 2 ^ 32 -> 0 < bits < 2 ^ 32 -> bits mod 8 = 0 ->
      length (deriveBits sc keyMaterial salt iterations bits) = Z.to_nat (bits / 8)).

Record Host := {
  (** [s.normalize(form)] *)
  normalize : NormalizationForm -> jsstring -> jsstring;
  (** [String(number)] *)
  Number_toString : Z -> jsstring;
  (** [globalThis.crypto.subtle], when present *)
  globalThis_subtle : option SubtleCrypto;
  (** [typeof window !== "undefined"] *)
  has_window : bool;
  (** [webcrypto.subtle] of the dynamically imported [crypto] module;
      [None] when the import or the access throws *)
  node_subtle : option SubtleCrypto;
  (** the message the engine gives the exception of that name when it
      throws it *)
  engine_message : string -> string;
}.

(** ** Exceptions, the invocation log and the monad *)

(** Every [throw] of the source is [throw new Error(message)].  The host
    throws a [TypeError] when an argument does not convert to the type its
    interface declares, and the provider rejects with a [DOMException] named
    after the reason. *)
Inductive exn :=
| Error (message : string)
| TypeError (message : string)
| DOMException (name message : string).

(** [e.message] *)
Definition exn_message (e : exn) : string :=
  match e with
  | Error message | TypeError message | DOMException _ message => message
  end.

Definition EnvironmentError : exn :=
  Error "Web Crypto API not available. In Node, use v18+; in browser/Tauri, use a modern runtime.".
Definition ValidationError : exn := Error "length must be at least 8".
Definition ConfigurationError : exn := Error "iterations must be >= 100,000".

(** One entry per call of [digest], [sign] and [deriveBits], with its
    arguments as the source passes them.  The call of [importKey] that
    precedes every [sign] and [deriveBits] is not recorded: its key data are
    the key of the entry that follows. *)
Inductive event :=
| EvDigest (data : bytes)
| EvSign (key msg : bytes)
| EvDeriveBits (keyMaterial salt : bytes) (iterations bits : Z).

Definition M (A : Type) : Type := list event -> (exn + A) * list event.

#[export] Instance M_ret : MRet M := fun A a log => (inr a, log).
#[export] Instance M_bind : MBind M := fun A B f m log =>
  match m log with
  | (inr a, log') => f a log'
  | (inl e, log') => (inl e, log')
  end.

Definition throw {A} (e : exn) : M A := fun log => (inl e, log).
Definition emit (ev : event) : M unit := fun log => (inr tt, log ++ [ev]).
Definition lift {A} (r : exn + A) : M A := fun log => (r, log).

(** ** A [string[]] as a JavaScript object

    Besides its indexed slots the array can carry the property named [NaN]:
    [prf[j] % (i + 1)] is [NaN] when [prf[j]] is [undefined], and
    [arr[NaN]] reads and writes that property. *)
Abbreviation cell := (option Z) (only parsing).

Record jsarray := { elems : list cell; prop_NaN : cell }.

Inductive key := Index (n : nat) | NaN.

Definition get (a : jsarray) (k : key) : cell :=
  match k with
  | Index n => default None (elems a !! n)
  | NaN => prop_NaN a
  end.

Definition put (a : jsarray) (k : key) (v : cell) : jsarray :=
  match k with
  | Index n =>
      {| elems :=
           if decide (n < length (elems a))%nat then <[n:=v]> (elems a)
           else elems a ++ replicate (n - length (elems a)) None ++ [v];
         prop_NaN := prop_NaN a |}
  | NaN => {| elems := elems a; prop_NaN := v |}
  end.

(** [s.split] and [a.join] with the empty separator; [join] prints
    [undefined] as the empty string. *)
Definition split (s : jsstring) : jsarray :=
  {| elems := Some <$> s; prop_NaN := None |}.

Definition join (cells : list cell) : jsstring :=
  cells ≫= (fun c => match c with Some u => [u] | None => [] end).

(** [a.slice(0, end)] for an integer [end]. *)
Definition slice0 (a : list cell) (e : Z) : list cell :=
  take (Z.to_nat (if e <? 0 then Z.max (Z.of_nat (length a) + e) 0 else e)) a.

(** ** Character policy *)

Definition LOWER : jsstring := js "abcdefghijklmnopqrstuvwxyz".
Definition UPPER : jsstring := js "ABCDEFGHIJKLMNOPQRSTUVWXYZ".
Definition DIGITS : jsstring := js "0123456789".
Definition SYMBOLS : jsstring := js "!@#$%^&*()-_=+[]{};:,.?/\|~".
Definition ALLSETS : list jsstring := [LOWER; UPPER; DIGITS; SYMBOLS].
Definition COMBINED : jsstring := concat ALLSETS.

(** ** Utilities *)

(** [b & 0xff]; on [undefined] the operand converts to 0. *)
Definition bytesToInt (b : option byte) : Z :=
  Z.land (match b with Some b => Z_of_byte b | None => 0 end) 0xff.

Definition concatBytes (arrays : list bytes) : bytes := concat arrays.

(** [prf[j] % (i + 1)] *)
Definition remainder_key (b : option byte) (n : nat) : key :=
  match b with
  | Some b => Index (Z.to_nat (Z_of_byte b) mod n)%nat
  | None => NaN
  end.

(** ** Mapping bytes to password with policy

    [keyBytes[i % keyBytes.length]] is [keyBytes !! (i mod length keyBytes)]:
    on an empty array the index is [NaN] in the source and [i] here, and both
    reads give [undefined]. *)
Definition pick (keyBytes : bytes) (set : jsstring) (i : nat) : cell :=
  let b := keyBytes !! (i mod length keyBytes)%nat in
  set !! Z.to_nat (bytesToInt b mod Z.of_nat (length set)).

Definition mapBytesToPassword (keyBytes : bytes) (len : Z) : exn + jsstring :=
  if len <? 8 then inl (Error "length must be at least 8") else
  let out := imap (fun i set => pick keyBytes set i) ALLSETS in
  let out := out ++ (pick keyBytes COMBINED
                       <$> seq (length ALLSETS) (Z.to_nat len - length ALLSETS)) in
  inr (join out).

(** ** The pipeline on a host *)

Record GenerateOptions := {
  o_context : option jsstring;
  o_length : option Z;
  o_iterations : option Z;
}.

Section Pipeline.
Context (H : Host).

Definition getSubtle : M SubtleCrypto :=
  match globalThis_subtle H with
  | Some subtle => mret subtle
  | None =>
      if negb (has_window H) then
        match node_subtle H with
        | Some subtle => mret subtle
        | None => throw EnvironmentError
        end
      else throw EnvironmentError
  end.

Definition normText (s : jsstring) : jsstring := trim (normalize H NFKC s).

Definition sha256 (data : bytes) : M bytes :=
  subtle ← getSubtle;
  emit (EvDigest data);;
  mret (digest subtle data).

(** [importKey] accepts a key of one byte or more; with an empty key it
    rejects and [sign] is never called, a case left out here: the statements
    about this function assume [keyBytes] is not empty, and inside
    [generatePassword] the key is the PBKDF2 output of 64 bytes or more. *)
Definition hmacSha256 (keyBytes msg : bytes) : M bytes :=
  subtle ← getSubtle;
  emit (EvSign keyBytes msg);;
  mret (sign subtle keyBytes msg).

(** [Pbkdf2Params.iterations] is an [[EnforceRange] unsigned long]: a count
    outside [0 .. 2^32 - 1] makes the call of [deriveBits] throw a
    [TypeError], and PBKDF2 rejects a count of zero with an
    [OperationError]. *)
Definition pbkdf2 (master : jsstring) (salt : bytes) (iterations bits : Z) : M bytes :=
  subtle ← getSubtle;
  let keyMaterial := encode (normText master) in
  emit (EvDeriveBits keyMaterial salt iterations bits);;
  if (iterations <? 0) || (2 ^ 32 <=? iterations) then
    throw (TypeError (engine_message H "TypeError"))
  else if iterations =? 0 then
    throw (DOMException "OperationError" (engine_message H "OperationError"))
  else mret (deriveBits subtle keyMaterial salt iterations bits).

(** [`${tag}|${normText(context)}|${normText(String(number))}`] *)
Definition payload (context : jsstring) (number : Z) : jsstring :=
  let tag := js "pwgen-salt-v1" in
  tag ++ js "|" ++ normText context ++ js "|" ++ normText (Number_toString H number).

Definition deterministicSalt (context : jsstring) (number : Z) : M bytes :=
  hash ← sha256 (encode (payload context number));
  mret (take 16 hash).

(** The body of [for (let i = arr.length - 1; i > 0; i--)], by recursion
    on [i]. *)
Fixpoint shuffle_loop (keyBytes : bytes) (i : nat) (prf : bytes) (j : nat)
    (arr : jsarray) : M jsarray :=
  match i with
  | O => mret arr
  | S i' =>
      '(prf, j) ←
        (if decide (length prf <= j)%nat then
           prf' ← hmacSha256 keyBytes (concatBytes [prf; encode (js "shuffle-next")]);
           mret (prf', 0%nat)
         else mret (prf, j));
      let k := remainder_key (prf !! j) (i + 1) in
      let j := S j in
      let tmp := get arr (Index i) in
      let arr := put arr (Index i) (get arr k) in
      let arr := put arr k tmp in
      shuffle_loop keyBytes i' prf j arr
  end.

(** The source mutates [arr] in place; here the shuffled array is returned. *)
Definition deterministicShuffle (arr : jsarray) (keyBytes : bytes) : M jsarray :=
  prf ← hmacSha256 keyBytes (encode (js "shuffle-v1"));
  shuffle_loop keyBytes (length (elems arr) - 1) prf 0 arr.

Definition generatePassword (masterPhrase : jsstring) (number : Z)
    (options : GenerateOptions) : M jsstring :=
  let context := default [] (o_context options) in
  let len := default 20 (o_length options) in
  let iterations := default 600000 (o_iterations options) in
  if iterations <? 100000 then throw (Error "iterations must be >= 100,000") else
  salt ← deterministicSalt context number;
  keyBytes ← pbkdf2 masterPhrase salt iterations (Z.max 512 (len * 16));
  password ← lift (mapBytesToPassword keyBytes len);
  let initial := split password in
  initial ← deterministicShuffle initial keyBytes;
  mret (join (slice0 (elems initial) len)).

End Pipeline.

(** ** A stand-in host

    It runs the model on concrete inputs.  Its provider has the output sizes
    of the real one and nothing of its strength; its normalizer implements the
    Unicode mappings of the code points listed below and leaves every other
    code unit alone. *)
Module Demo.

Definition fold_bytes (d : bytes) : Z :=
  foldl (fun acc b => (acc * 131 + Z_of_byte b + 1) mod 65521) 7 d.

Definition spread (seed : Z) (n : nat) : bytes :=
  (fun i => byte_of_Z (seed + (seed + 89) * Z.of_nat i * Z.of_nat i + 167 * Z.of_nat i))
    <$> seq 0 n.

Definition subtle : SubtleCrypto := {|
  digest data := spread (fold_bytes data) 32;
  sign key msg := spread (fold_bytes key * 3 + fold_bytes msg) 32;
  deriveBits keyMaterial salt iterations bits :=
    spread (fold_bytes keyMaterial * 5 + fold_bytes salt + iterations)
           (Z.to_nat (bits / 8));
|}.

(** Compatibility mappings: U+00A0 NO-BREAK SPACE to U+0020, U+FB01 LATIN
    SMALL LIGATURE FI to "fi", U+FF21 FULLWIDTH LATIN CAPITAL LETTER A to
    "A", U+2460 CIRCLED DIGIT ONE to "1".  None of the four has a canonical
    decomposition. *)
Definition compat (c : Z) : jsstring :=
  if c =? 0x00A0 then [0x0020]
  else if c =? 0xFB01 then js "fi"
  else if c =? 0xFF21 then js "A"
  else if c =? 0x2460 then js "1"
  else [c].

Definition normalizer (form : NormalizationForm) (s : jsstring) : jsstring :=
  match form with
  | NFC | NFD => s
  | NFKC | NFKD => s ≫= compat
  end.

(** Decimal numeral of an integer, as [String(n)] prints integers below
    10^21 in magnitude. *)
Definition decimal (n : Z) : jsstring :=
  js (DecimalString.NilZero.string_of_int (Z.to_int n)).

Definition messages (name : string) : string :=
  String.append name " thrown by the engine".

Definition host : Host := {|
  normalize := normalizer;
  Number_toString := decimal;
  globalThis_subtle := Some subtle;
  has_window := true;
  node_subtle := None;
  engine_message := messages;
|}.

(** A runtime without Web Crypto. *)
Definition bare_host : Host := {|
  normalize := normalizer;
  Number_toString := decimal;
  globalThis_subtle := None;
  has_window := true;
  node_subtle := None;
  engine_message := messages;
|}.

Definition options (len iterations : Z) : GenerateOptions :=
  {| o_context := Some (js "example.com");
     o_length := Some len;
     o_iterations := Some iterations |}.

Definition defaults : GenerateOptions :=
  {| o_context := None; o_length := None; o_iterations := None |}.

End Demo.

(** ** Notions used by the statements *)

(** The provider [getSubtle] resolves to, if any. *)
Definition provider (H : Host) : option SubtleCrypto :=
  match globalThis_subtle H with
  | Some subtle => Some subtle
  | None => if negb (has_window H) then node_subtle H else None
  end.

(** [runs m r evs]: whatever was logged before, [m] ends with outcome [r]
    after making exactly the calls [evs] to the provider, in that order. *)
Definition runs {A} (m : M A) (r : exn + A) (evs : list event) : Prop :=
  forall log, m log = (r, log ++ evs).

(** The four classes of the policy. *)
Definition isLower (c : Z) : bool := (0x61 <=? c) && (c <=? 0x7A).
Definition isUpper (c : Z) : bool := (0x41 <=? c) && (c <=? 0x5A).
Definition isDigit (c : Z) : bool := (0x30 <=? c) && (c <=? 0x39).
Definition isSymbol (c : Z) : bool := bool_decide (c ∈ SYMBOLS).

Definition covers_all_classes (password : jsstring) : bool :=
  existsb isLower password && existsb isUpper password
  && existsb isDigit password && existsb isSymbol password.

(** The character the mapper emits for position [i] from alphabet [set]. *)
Definition chosen (keyBytes : bytes) (set : jsstring) (i : nat) : Z :=
  default 0 (pick keyBytes set i).

(** The mapper's output, position by position. *)
Definition mapped (keyBytes : bytes) (len : Z) : jsstring :=
  [chosen keyBytes LOWER 0; chosen keyBytes UPPER 1;
   chosen keyBytes DIGITS 2; chosen keyBytes SYMBOLS 3]
  ++ (chosen keyBytes COMBINED <$> seq 4 (Z.to_nat len - 4)).

(** The salt and the key material of a call on a host whose provider is
    [sc]. *)
Definition salt_of (H : Host) (sc : SubtleCrypto) (context : jsstring) (number : Z) : bytes :=
  take 16 (digest sc (encode (payload H context number))).

Definition keyBytes_of (H : Host) (sc : SubtleCrypto) (masterPhrase : jsstring)
    (number : Z) (context : jsstring) (len iterations : Z) : bytes :=
  deriveBits sc (encode (normText H masterPhrase)) (salt_of H sc context number)
             iterations (Z.max 512 (len * 16)).

(** What Unicode guarantees about white space under NFKC: a white-space code
    point maps to white space, is a starter and takes part in no canonical
    composition, so white space around a string normalizes on its own. *)
Definition whitespace_stable (H : Host) : Prop :=
  forall pre s post,
    forallb isWhiteSpace pre = true -> forallb isWhiteSpace post = true ->
    exists pre' post',
      forallb isWhiteSpace pre' = true /\ forallb isWhiteSpace post' = true /\
      normalize H NFKC (pre ++ s ++ post) = pre' ++ normalize H NFKC s ++ post'.

(** ** The pseudorandom stream of the shuffle

    Block 0 is [MAC(keyBytes, "shuffle-v1")]; block [m + 1] is
    [MAC(keyBytes, block m ++ "shuffle-next")]. *)
Fixpoint prf_block (sc : SubtleCrypto) (keyBytes : bytes) (m : nat) : bytes :=
  match m with
  | O => sign sc keyBytes (encode (js "shuffle-v1"))
  | S m' =>
      sign sc keyBytes (concatBytes [prf_block sc keyBytes m'; encode (js "shuffle-next")])
  end.

(** The message signed to obtain block [m]. *)
Definition prf_message (sc : SubtleCrypto) (keyBytes : bytes) (m : nat) : bytes :=
  match m with
  | O => encode (js "shuffle-v1")
  | S m' => concatBytes [prf_block sc keyBytes m'; encode (js "shuffle-next")]
  end.

(** The log of a shuffle that draws [blocks] blocks. *)
Definition shuffle_events (sc : SubtleCrypto) (keyBytes : bytes) (blocks : nat) : list event :=
  (fun m => EvSign keyBytes (prf_message sc keyBytes m)) <$> seq 0 blocks.

(** Blocks drawn for an array of [n] slots: one swap per slot but the first,
    one byte per swap, 32 bytes per block, and block 0 is always drawn. *)
Definition shuffle_blocks (n : nat) : nat :=
  match n with
  | O | 1%nat => 1%nat
  | S (S n') => (1 + n' / 32)%nat
  end.

(** Blocks drawn by the remaining [i] iterations of the loop when [j] bytes
    of the current block are used. *)
Definition refills (i j : nat) : nat :=
  match i with
  | O => 0%nat
  | S i' => ((i' + j) / 32)%nat
  end.

(** The 256 byte values. *)
Definition all_bytes : bytes := (fun n => byte_of_Z (Z.of_nat n)) <$> seq 0 256.

(** ** The command line

    The loop of the CLI block that fills [args]:
    [for (let i = 0; i < rest.length; i += 2)] reads [k = rest[i]] and
    [v = rest[i + 1]] and, when [k] starts with two dashes and [v] is there,
    runs [args.set(k.slice(2), v)]. *)
Definition startsWith (s prefix : jsstring) : bool :=
  bool_decide (take (length prefix) s = prefix).

Fixpoint cli_args (rest : list jsstring) (args : gmap jsstring jsstring)
    : gmap jsstring jsstring :=
  match rest with
  | k :: v :: rest' =>
      cli_args rest' (if startsWith k (js "--") then <[drop 2 k := v]> args else args)
  | _ => args
  end.

(** ** The form

    The state of [App] and the click handler of its Generate button.  The
    handler is run to completion with no other event in between. *)
Record AppState := {
  text : jsstring;
  result : jsstring;
  busy : bool;
  error : string;
  app_length : Z;
  copied : bool;
  showMaster : bool;
}.

(** [disabled={!text || busy}] *)
Definition generate_disabled (st : AppState) : bool :=
  bool_decide (text st = []) || busy st.

Definition onClick_generate (H : Host) (st : AppState)
    : list event -> AppState * list event :=
  fun log =>
    (* setError, setResult with the empty string; setBusy(true) *)
    let st := {| text := text st; result := []; busy := true; error := EmptyString;
                 app_length := app_length st; copied := copied st;
                 showMaster := showMaster st |} in
    let '(r, log') :=
      generatePassword H (text st) 1
        {| o_context := Some []; o_length := Some (app_length st);
           o_iterations := Some 600000 |} log in
    let st :=
      match r with
      | inr pwd =>
          (* setResult(pwd) *)
          {| text := text st; result := pwd; busy := busy st; error := error st;
             app_length := app_length st; copied := copied st;
             showMaster := showMaster st |}
      | inl e =>
          (* setError(e?.message ?? String(e)) *)
          {| text := text st; result := result st; busy := busy st;
             error := exn_message e;
             app_length := app_length st; copied := copied st;
             showMaster := showMaster st |}
      end in
    (* finally: setBusy(false) *)
    ({| text := text st; result := result st; busy := false; error := error st;
        app_length := app_length st; copied := copied st;
        showMaster := showMaster st |}, log').

(** A click on the button: nothing happens while it is disabled. *)
Definition click_generate (H : Host) (st : AppState)
    : list event -> AppState * list event :=
  fun log => if generate_disabled st then (st, log) else onClick_generate H st log.

(** ** Sample runs *)

Example encode_sample : encode (js "shuffle-v1") =
  ["s"; "h"; "u"; "f"; "f"; "l"; "e"; "-"; "v"; "1"]%byte.
Proof. reflexivity. Qed.

Example encode_astral : encode [0x20AC; 0xD83D; 0xDE00] =
  [xe2; x82; xac; xf0; x9f; x98; x80].
Proof. reflexivity. Qed.

Example trim_sample : trim (js "  a b ") = js "a b".
Proof. reflexivity. Qed.

Example Number_toString_sample :
  Demo.decimal 0 = js "0" /\ Demo.decimal (-12) = js "-12".
Proof. split; reflexivity. Qed.

Example generate_sample :
  fst (generatePassword Demo.host (js "correct horse battery staple") 1
         (Demo.options 16 100000) [])
  = inr (js "}?CLaS6(q((oq2(1").
Proof. vm_compute. reflexivity. Qed.

Example generate_without_provider :
  generatePassword Demo.bare_host (js "correct horse battery staple") 1
    (Demo.options 16 100000) []
  = (inl EnvironmentError, []).
Proof. reflexivity. Qed.

(** ** The monad *)

Lemma runs_ret {A} (a : A) : runs (mret a) (inr a) [].
Proof. intros log. unfold mret, M_ret. by rewrite app_nil_r. Qed.

Lemma runs_throw {A} (e : exn) : runs (@throw A e) (inl e) [].
Proof. intros log. unfold throw. by rewrite app_nil_r. Qed.

Lemma runs_lift {A} (r : exn + A) : runs (lift r) r [].
Proof. intros log. unfold lift. by rewrite app_nil_r. Qed.

Lemma runs_emit (ev : event) : runs (emit ev) (inr tt) [ev].
Proof. by intros log. Qed.

Lemma runs_bind {A B} (m : M A) (f : A -> M B) a evs1 r evs2 :
  runs m (inr a) evs1 -> runs (f a) r evs2 -> runs (m ≫= f) r (evs1 ++ evs2).
Proof.
  intros Hm Hf log. unfold mbind, M_bind.
  by rewrite Hm, Hf, app_assoc.
Qed.

Lemma runs_bind_throw {A B} (m : M A) (f : A -> M B) e evs :
  runs m (inl e) evs -> runs (m ≫= f) (inl e) evs.
Proof. intros Hm log. unfold mbind, M_bind. by rewrite Hm. Qed.

Lemma runs_inj {A} (m : M A) r1 evs1 r2 evs2 :
  runs m r1 evs1 -> runs m r2 evs2 -> r1 = r2 /\ evs1 = evs2.
Proof.
  intros H1 H2. specialize (H1 []). specialize (H2 []).
  rewrite H1 in H2. simpl in H2. by simplify_eq.
Qed.

Lemma getSubtle_runs H :
  runs (getSubtle H)
       (match provider H with Some sc => inr sc | None => inl EnvironmentError end) [].
Proof.
  unfold getSubtle, provider.
  destruct (globalThis_subtle H); [apply runs_ret|].
  destruct (negb (has_window H)); [|apply runs_throw].
  destruct (node_subtle H); [apply runs_ret | apply runs_throw].
Qed.

Section WithProvider.
Context (H : Host) (sc : SubtleCrypto) (Hsc : provider H = Some sc).

Lemma getSubtle_ok : runs (getSubtle H) (inr sc) [].
Proof. generalize (getSubtle_runs H). by rewrite Hsc. Qed.

Lemma sha256_runs data :
  runs (sha256 H data) (inr (digest sc data)) [EvDigest data].
Proof.
  unfold sha256.
  eapply (runs_bind _ _ _ []); [apply getSubtle_ok|].
  eapply (runs_bind _ _ _ [_]); [apply runs_emit|apply runs_ret].
Qed.

Lemma hmacSha256_runs keyBytes msg :
  runs (hmacSha256 H keyBytes msg) (inr (sign sc keyBytes msg)) [EvSign keyBytes msg].
Proof.
  unfold hmacSha256.
  eapply (runs_bind _ _ _ []); [apply getSubtle_ok|].
  eapply (runs_bind _ _ _ [_]); [apply runs_emit|apply runs_ret].
Qed.

Lemma pbkdf2_runs master salt iterations bits :
  0 < iterations < 2 ^ 32 ->
  runs (pbkdf2 H master salt iterations bits)
       (inr (deriveBits sc (encode (normText H master)) salt iterations bits))
       [EvDeriveBits (encode (normText H master)) salt iterations bits].
Proof.
  intros Hit. unfold pbkdf2.
  eapply (runs_bind _ _ _ []); [apply getSubtle_ok|].
  eapply (runs_bind _ _ _ [_] _ []); [apply runs_emit|].
  destruct (Z.ltb_spec iterations 0) as [?|_]; [lia|].
  destruct (Z.leb_spec (2 ^ 32) iterations) as [?|_]; [lia|].
  destruct (Z.eqb_spec iterations 0) as [?|_]; [lia|].
  apply runs_ret.
Qed.

Lemma pbkdf2_out_of_range master salt iterations bits :
  2 ^ 32 <= iterations ->
  runs (pbkdf2 H master salt iterations bits)
       (inl (TypeError (engine_message H "TypeError")))
       [EvDeriveBits (encode (normText H master)) salt iterations bits].
Proof.
  intros Hit. unfold pbkdf2.
  eapply (runs_bind _ _ _ []); [apply getSubtle_ok|].
  eapply (runs_bind _ _ _ [_] _ []); [apply runs_emit|].
  destruct (Z.ltb_spec iterations 0) as [?|_]; [lia|].
  destruct (Z.leb_spec (2 ^ 32) iterations) as [_|?]; [|lia].
  apply runs_throw.
Qed.

Lemma deterministicSalt_runs context number :
  runs (deterministicSalt H context number)
       (inr (salt_of H sc context number))
       [EvDigest (encode (payload H context number))].
Proof.
  unfold deterministicSalt.
  eapply (runs_bind _ _ _ [_]); [apply sha256_runs|apply runs_ret].
Qed.

End WithProvider.

(** ** Arrays *)

Lemma join_split (s : jsstring) : join (Some <$> s) = s.
Proof.
  unfold join. induction s as [|c s IH]; [done|].
  rewrite fmap_cons, bind_cons, IH. done.
Qed.

Lemma join_Permutation (a b : list cell) : a ≡ₚ b -> join a ≡ₚ join b.
Proof. intros Hab. unfold join. by rewrite Hab. Qed.

Lemma slice0_all (a : list cell) (e : Z) :
  0 <= e -> (length a <= Z.to_nat e)%nat -> slice0 a e = a.
Proof.
  intros He Hlen. unfold slice0.
  destruct (Z.ltb_spec e 0) as [?|_]; [lia|].
  by apply take_ge.
Qed.

(** The three assignments of the loop body exchange two slots when both
    indices are inside the array. *)
Lemma swap_Permutation (arr : jsarray) (i k : nat) :
  (i < length (elems arr))%nat -> (k <= i)%nat ->
  elems (put (put arr (Index i) (get arr (Index k))) (Index k) (get arr (Index i)))
  ≡ₚ elems arr.
Proof.
  intros Hi Hk.
  destruct (lookup_lt_is_Some_2 (elems arr) i Hi) as [x Hx].
  destruct (lookup_lt_is_Some_2 (elems arr) k ltac:(lia)) as [y Hy].
  unfold put, get; cbn [elems prop_NaN]. rewrite Hx, Hy. cbn [default].
  rewrite !(decide_True (P := (i < length (elems arr))%nat)) by done.
  rewrite decide_True by (rewrite length_insert; lia).
  by apply Permutation_insert_swap.
Qed.

Lemma remainder_key_Some (b : byte) (n : nat) :
  (0 < n)%nat -> exists k, remainder_key (Some b) n = Index k /\ (k < n)%nat.
Proof.
  intros Hn. eexists. split; [done|].
  apply Nat.mod_upper_bound. lia.
Qed.

(** ** The shuffle *)

Section Shuffle.
Context (H : Host) (sc : SubtleCrypto) (Hsc : provider H = Some sc).
Context (keyBytes : bytes).

(** The refill guard: afterwards the next byte to read exists whenever the
    provider returns 32 bytes. *)
Lemma refill_runs (prf : bytes) (j : nat) :
  exists prf1 j1 evs,
    runs (if decide (length prf <= j)%nat then
            prf' ← hmacSha256 H keyBytes (concatBytes [prf; encode (js "shuffle-next")]);
            mret (prf', 0%nat)
          else mret (prf, j))
         (inr (prf1, j1)) evs
    /\ (WebCryptoContract sc -> length prf = 32%nat ->
        length prf1 = 32%nat /\ (j1 < 32)%nat).
Proof.
  destruct (decide (length prf <= j)%nat) as [Hge|Hlt].
  - eexists _, _, _. split.
    + eapply runs_bind; [by apply hmacSha256_runs|apply runs_ret].
    + intros (_ & Hsign & _) _. rewrite Hsign. lia.
  - eexists _, _, _. split; [apply runs_ret|].
    intros _ Hlen. lia.
Qed.

Lemma shuffle_loop_runs (i : nat) : forall (prf : bytes) (j : nat) (arr : jsarray),
  exists arr' evs,
    runs (shuffle_loop H keyBytes i prf j arr) (inr arr') evs
    /\ (WebCryptoContract sc -> length prf = 32%nat ->
        (i < length (elems arr))%nat -> elems arr' ≡ₚ elems arr).
Proof.
  induction i as [|i IH]; intros prf j arr.
  - exists arr, []. split; [apply runs_ret|done].
  - destruct (refill_runs prf j) as (prf1 & j1 & evs1 & Hrefill & Hprf1).
    set (k := remainder_key (prf1 !! j1) (S i + 1)).
    set (arr1 := put (put arr (Index (S i)) (get arr k)) k (get arr (Index (S i)))).
    destruct (IH prf1 (S j1) arr1) as (arr' & evs2 & Hrest & Hperm).
    exists arr', (evs1 ++ evs2). split.
    + simpl. eapply runs_bind; [exact Hrefill|exact Hrest].
    + intros Hc Hlen Hi.
      destruct (Hprf1 Hc Hlen) as [Hlen1 Hj1].
      assert (Hswap : elems arr1 ≡ₚ elems arr).
      { destruct (lookup_lt_is_Some_2 prf1 j1 ltac:(lia)) as [b Hb].
        subst arr1 k. rewrite Hb.
        destruct (remainder_key_Some b (S i + 1) ltac:(lia)) as (kn & -> & Hkn).
        apply swap_Permutation; lia. }
      rewrite <- Hswap. apply Hperm; [done..|].
      rewrite Hswap. lia.
Qed.

Lemma deterministicShuffle_runs (arr : jsarray) :
  exists arr' evs,
    runs (deterministicShuffle H arr keyBytes) (inr arr') evs
    /\ (WebCryptoContract sc -> elems arr' ≡ₚ elems arr).
Proof.
  unfold deterministicShuffle.
  destruct (shuffle_loop_runs (length (elems arr) - 1)
              (sign sc keyBytes (encode (js "shuffle-v1"))) 0 arr)
    as (arr' & evs & Hloop & Hperm).
  exists arr', ([EvSign keyBytes (encode (js "shuffle-v1"))] ++ evs). split.
  - eapply runs_bind; [by apply hmacSha256_runs|exact Hloop].
  - intros Hc. destruct (elems arr) as [|c rest] eqn:Harr.
    + simpl in Hloop.
      destruct (runs_inj _ _ _ _ _ Hloop (runs_ret arr)) as [[= ->] _].
      by rewrite Harr.
    + rewrite <- Harr in *. apply Hperm; [done|by apply Hc|].
      rewrite Harr. simpl. lia.
Qed.

End Shuffle.

(** ** The mapper *)

Lemma pick_chosen (keyBytes : bytes) (set : jsstring) (i : nat) :
  set <> [] ->
  pick keyBytes set i = Some (chosen keyBytes set i) /\ chosen keyBytes set i ∈ set.
Proof.
  intros Hset. unfold chosen, pick.
  set (n := Z.to_nat (_ mod _)).
  assert (Hn : (n < length set)%nat).
  { subst n. destruct set as [|c set]; [done|].
    pose proof (Z.mod_pos_bound
      (bytesToInt (keyBytes !! (i mod length keyBytes)%nat))
      (Z.of_nat (length (c :: set))) ltac:(simpl; lia)).
    lia. }
  destruct (lookup_lt_is_Some_2 set n Hn) as [c Hc].
  rewrite Hc. split; [done|].
  by eapply list_elem_of_lookup_2.
Qed.

Lemma alphabets_nonempty :
  LOWER <> [] /\ UPPER <> [] /\ DIGITS <> [] /\ SYMBOLS <> [] /\ COMBINED <> [].
Proof. by repeat split. Qed.

Lemma mapBytesToPassword_valid (keyBytes : bytes) (len : Z) :
  8 <= len -> mapBytesToPassword keyBytes len = inr (mapped keyBytes len).
Proof.
  intros Hlen. unfold mapBytesToPassword.
  destruct (Z.ltb_spec len 8) as [?|_]; [lia|].
  destruct alphabets_nonempty as (Hl & Hu & Hd & Hs & Hc).
  f_equal. rewrite <- (join_split (mapped keyBytes len)). f_equal.
  unfold mapped. rewrite fmap_app. f_equal.
  - change (imap (fun i set => pick keyBytes set i) ALLSETS)
      with [pick keyBytes LOWER 0; pick keyBytes UPPER 1;
            pick keyBytes DIGITS 2; pick keyBytes SYMBOLS 3].
    rewrite (proj1 (pick_chosen keyBytes LOWER 0 Hl)),
            (proj1 (pick_chosen keyBytes UPPER 1 Hu)),
            (proj1 (pick_chosen keyBytes DIGITS 2 Hd)),
            (proj1 (pick_chosen keyBytes SYMBOLS 3 Hs)).
    done.
  - change (length ALLSETS) with 4%nat.
    rewrite <- list_fmap_compose. apply list_fmap_ext.
    intros _ i _. simpl. apply (pick_chosen keyBytes COMBINED i Hc).
Qed.

Lemma mapBytesToPassword_short (keyBytes : bytes) (len : Z) :
  len < 8 -> mapBytesToPassword keyBytes len = inl ValidationError.
Proof.
  intros Hlen. unfold mapBytesToPassword.
  by destruct (Z.ltb_spec len 8) as [_|?]; [|lia].
Qed.

Lemma length_mapped (keyBytes : bytes) (len : Z) :
  8 <= len -> length (mapped keyBytes len) = Z.to_nat len.
Proof.
  intros Hlen. unfold mapped.
  rewrite length_app, length_fmap, length_seq. simpl. lia.
Qed.

Lemma class_of_alphabet (p : Z -> bool) (set : jsstring) (c : Z) :
  forallb p set = true -> c ∈ set -> p c = true.
Proof.
  intros Hall Hc. rewrite forallb_forall in Hall.
  apply Hall. by apply list_elem_of_In.
Qed.

Lemma existsb_elem_of (p : Z -> bool) (s : jsstring) (c : Z) :
  c ∈ s -> p c = true -> existsb p s = true.
Proof.
  intros Hc Hp. apply existsb_exists. exists c.
  split; [by apply list_elem_of_In|done].
Qed.

Lemma mapped_covers (keyBytes : bytes) (len : Z) (password : jsstring) :
  password ≡ₚ mapped keyBytes len -> covers_all_classes password = true.
Proof.
  intros Hperm. destruct alphabets_nonempty as (Hl & Hu & Hd & Hs & _).
  unfold covers_all_classes. rewrite !andb_true_iff. repeat split.
  - apply (existsb_elem_of _ _ (chosen keyBytes LOWER 0)).
    + rewrite Hperm. unfold mapped. set_solver.
    + by apply (class_of_alphabet _ LOWER), pick_chosen.
  - apply (existsb_elem_of _ _ (chosen keyBytes UPPER 1)).
    + rewrite Hperm. unfold mapped. set_solver.
    + by apply (class_of_alphabet _ UPPER), pick_chosen.
  - apply (existsb_elem_of _ _ (chosen keyBytes DIGITS 2)).
    + rewrite Hperm. unfold mapped. set_solver.
    + by apply (class_of_alphabet _ DIGITS), pick_chosen.
  - apply (existsb_elem_of _ _ (chosen keyBytes SYMBOLS 3)).
    + rewrite Hperm. unfold mapped. set_solver.
    + by apply (class_of_alphabet _ SYMBOLS), pick_chosen.
Qed.

(** ** The orchestrator *)

Section Orchestrator.
Context (H : Host) (masterPhrase : jsstring) (number : Z) (options : GenerateOptions).

Local Abbreviation context := (default [] (o_context options)).
Local Abbreviation len := (default 20 (o_length options)).
Local Abbreviation iterations := (default 600000 (o_iterations options)).

(** The iteration floor is checked before anything else. *)
Lemma generatePassword_low_iterations :
  iterations < 100000 ->
  runs (generatePassword H masterPhrase number options) (inl ConfigurationError) [].
Proof.
  intros Hit. unfold generatePassword.
  destruct (Z.ltb_spec iterations 100000) as [_|?]; [|lia].
  apply runs_throw.
Qed.

(** Without a provider the first stage, the salt, already fails. *)
Lemma generatePassword_no_provider :
  provider H = None -> 100000 <= iterations ->
  runs (generatePassword H masterPhrase number options) (inl EnvironmentError) [].
Proof.
  intros Hnone Hit. unfold generatePassword.
  destruct (Z.ltb_spec iterations 100000) as [?|_]; [lia|].
  apply runs_bind_throw. unfold deterministicSalt.
  apply runs_bind_throw. unfold sha256.
  apply runs_bind_throw.
  generalize (getSubtle_runs H). by rewrite Hnone.
Qed.

Context (sc : SubtleCrypto) (Hsc : provider H = Some sc).

(** An iteration count that is no 32-bit unsigned number is refused by the
    call of [deriveBits], the second stage. *)
Lemma generatePassword_out_of_range :
  2 ^ 32 <= iterations ->
  runs (generatePassword H masterPhrase number options)
       (inl (TypeError (engine_message H "TypeError")))
       [EvDigest (encode (payload H context number));
        EvDeriveBits (encode (normText H masterPhrase))
                     (salt_of H sc context number) iterations
                     (Z.max 512 (len * 16))].
Proof.
  intros Hit. unfold generatePassword.
  destruct (Z.ltb_spec iterations 100000) as [?|_]; [lia|].
  eapply (runs_bind _ _ _ [_] _ [_]); [apply (deterministicSalt_runs H sc Hsc)|].
  apply runs_bind_throw. by apply (pbkdf2_out_of_range H sc Hsc).
Qed.

(** A short length is noticed by the mapper, the third stage. *)
Lemma generatePassword_short :
  100000 <= iterations -> iterations < 2 ^ 32 -> len < 8 ->
  runs (generatePassword H masterPhrase number options) (inl ValidationError)
       [EvDigest (encode (payload H context number));
        EvDeriveBits (encode (normText H masterPhrase))
                     (salt_of H sc context number) iterations 512].
Proof.
  intros Hit Hmax Hlen. unfold generatePassword.
  destruct (Z.ltb_spec iterations 100000) as [?|_]; [lia|].
  rewrite (Z.max_l 512 (len * 16)) by lia.
  eapply (runs_bind _ _ _ [_] _ [_]); [by apply deterministicSalt_runs|].
  eapply (runs_bind _ _ _ [_] _ []); [apply pbkdf2_runs; [done|lia]|].
  apply runs_bind_throw.
  rewrite mapBytesToPassword_short by done.
  apply runs_lift.
Qed.

(** A valid call runs all four stages and returns a rearrangement of the
    mapper's output. *)
Lemma generatePassword_valid :
  100000 <= iterations -> iterations < 2 ^ 32 -> 8 <= len ->
  exists password evs,
    runs (generatePassword H masterPhrase number options) (inr password)
         (EvDigest (encode (payload H context number))
          :: EvDeriveBits (encode (normText H masterPhrase))
                          (salt_of H sc context number) iterations
                          (Z.max 512 (len * 16))
          :: evs)
    /\ (WebCryptoContract sc ->
        password ≡ₚ mapped (keyBytes_of H sc masterPhrase number context len iterations) len).
Proof.
  intros Hit Hmax Hlen.
  set (keyBytes := keyBytes_of H sc masterPhrase number context len iterations).
  destruct (deterministicShuffle_runs H sc Hsc keyBytes (split (mapped keyBytes len)))
    as (arr' & evs & Hshuffle & Hperm).
  exists (join (slice0 (elems arr') len)), ([] ++ (evs ++ [])). split.
  - unfold generatePassword.
    destruct (Z.ltb_spec iterations 100000) as [?|_]; [lia|].
    eapply (runs_bind _ _ _ [_]); [by apply deterministicSalt_runs|].
    eapply (runs_bind _ _ _ [_]); [apply pbkdf2_runs; [done|lia]|].
    fold (keyBytes_of H sc masterPhrase number context len iterations). fold keyBytes.
    rewrite mapBytesToPassword_valid by done.
    eapply (runs_bind _ _ _ [] _ (evs ++ [])); [apply runs_lift|].
    eapply (runs_bind _ _ _ evs _ []); [exact Hshuffle|apply runs_ret].
  - intros Hc. specialize (Hperm Hc). unfold split in Hperm. cbn [elems] in Hperm.
    rewrite slice0_all.
    + rewrite <- (join_split (mapped keyBytes len)).
      by apply join_Permutation.
    + lia.
    + rewrite Hperm, length_fmap, length_mapped by done. lia.
Qed.

End Orchestrator.

(** Every call has one outcome and one sequence of calls to the provider,
    whatever the log it starts from. *)
Lemma generatePassword_runs H masterPhrase number options :
  exists r evs, runs (generatePassword H masterPhrase number options) r evs.
Proof.
  destruct (Z.lt_ge_cases (default 600000 (o_iterations options)) 100000) as [Hit|Hit].
  { eexists _, _. by apply generatePassword_low_iterations. }
  destruct (provider H) as [sc|] eqn:Hsc.
  - destruct (Z.lt_ge_cases (default 600000 (o_iterations options)) (2 ^ 32))
      as [Hmax|Hmax].
    + destruct (Z.lt_ge_cases (default 20 (o_length options)) 8) as [Hlen|Hlen].
      * eexists _, _. by eapply generatePassword_short.
      * destruct (generatePassword_valid H masterPhrase number options sc Hsc
                    Hit Hmax Hlen) as (password & evs & Hruns & _).
        eexists _, _. exact Hruns.
    + eexists _, _. by eapply generatePassword_out_of_range.
  - eexists _, _. by apply generatePassword_no_provider.
Qed.

(** The derivation parameters of a call: a 16-byte salt and
    [max(512, length * 16) / 8] bytes of key material. *)
Lemma salt_of_length H sc context number :
  WebCryptoContract sc -> length (salt_of H sc context number) = 16%nat.
Proof.
  intros (Hdigest & _ & _). unfold salt_of.
  rewrite length_take, Hdigest. done.
Qed.

Lemma keyBytes_of_length H sc masterPhrase number context len iterations :
  WebCryptoContract sc -> 100000 <= iterations < 2 ^ 32 -> len * 16 < 2 ^ 32 ->
  Z.of_nat (length (keyBytes_of H sc masterPhrase number context len iterations))
  = Z.max 64 (len * 2).
Proof.
  intros (_ & _ & Hderive) Hit Hbits. unfold keyBytes_of.
  rewrite Hderive; [|lia|lia|].
  - rewrite Z2Nat.id by (apply Z.div_pos; lia).
    destruct (Z.max_spec 512 (len * 16)) as [[? ->]|[? ->]].
    + replace (len * 16) with (len * 2 * 8) by lia.
      rewrite Z.div_mul by lia. lia.
    + change (512 / 8) with 64. lia.
  - destruct (Z.max_spec 512 (len * 16)) as [[? ->]|[? ->]]; [|done].
    replace (len * 16) with (len * 2 * 8) by lia.
    apply Z.mod_mul. lia.
Qed.

(** ** Trimming *)

Lemma trimStart_whitespace (s : jsstring) :
  forallb isWhiteSpace s = true -> trimStart s = [].
Proof.
  induction s as [|c s IH]; [done|].
  simpl. intros [Hc Hs]%andb_true_iff. rewrite Hc. auto.
Qed.

Lemma trimStart_app (s t : jsstring) :
  trimStart (s ++ t) =
  if forallb isWhiteSpace s then trimStart t else trimStart s ++ t.
Proof.
  induction s as [|c s IH]; [done|].
  simpl. destruct (isWhiteSpace c); [exact IH|done].
Qed.

Lemma forallb_reverse (p : Z -> bool) (s : jsstring) :
  forallb p (reverse s) = forallb p s.
Proof.
  induction s as [|c s IH]; [done|].
  rewrite reverse_cons, forallb_app, IH. simpl.
  rewrite andb_true_r. apply andb_comm.
Qed.

Lemma trimEnd_app_whitespace (s post : jsstring) :
  forallb isWhiteSpace post = true -> trimEnd (s ++ post) = trimEnd s.
Proof.
  intros Hpost. unfold trimEnd.
  rewrite reverse_app, trimStart_app, forallb_reverse, Hpost. done.
Qed.

Lemma trim_whitespace (pre s post : jsstring) :
  forallb isWhiteSpace pre = true -> forallb isWhiteSpace post = true ->
  trim (pre ++ s ++ post) = trim s.
Proof.
  intros Hpre Hpost. unfold trim.
  rewrite trimStart_app, Hpre, trimStart_app.
  destruct (forallb isWhiteSpace s) eqn:Hs.
  - by rewrite (trimStart_whitespace post), (trimStart_whitespace s).
  - by apply trimEnd_app_whitespace.
Qed.

Lemma normText_whitespace (H : Host) (pre s post : jsstring) :
  whitespace_stable H ->
  forallb isWhiteSpace pre = true -> forallb isWhiteSpace post = true ->
  normText H (pre ++ s ++ post) = normText H s.
Proof.
  intros Hstable Hpre Hpost. unfold normText.
  destruct (Hstable pre s post Hpre Hpost) as (pre' & post' & Hpre' & Hpost' & ->).
  by apply trim_whitespace.
Qed.

(** ** The stand-in host meets what the statements assume *)

Lemma Demo_subtle_contract : WebCryptoContract Demo.subtle.
Proof.
  repeat split; intros; simpl; unfold Demo.spread;
    by rewrite length_fmap, length_seq.
Qed.

Lemma Demo_compat_whitespace (c : Z) :
  isWhiteSpace c = true -> forallb isWhiteSpace (Demo.compat c) = true.
Proof.
  intros Hc. unfold Demo.compat.
  repeat match goal with
         | |- context [?a =? ?b] => destruct (Z.eqb_spec a b) as [->|_]
         end; try done.
  simpl. by rewrite Hc.
Qed.

Lemma Demo_normalize_whitespace (s : jsstring) :
  forallb isWhiteSpace s = true ->
  forallb isWhiteSpace (Demo.normalizer NFKC s) = true.
Proof.
  unfold Demo.normalizer. induction s as [|c s IH]; [done|].
  simpl. intros [Hc Hs]%andb_true_iff.
  rewrite forallb_app, (Demo_compat_whitespace c Hc). simpl. auto.
Qed.

Lemma Demo_host_whitespace_stable : whitespace_stable Demo.host.
Proof.
  intros pre s post Hpre Hpost.
  exists (Demo.normalizer NFKC pre), (Demo.normalizer NFKC post).
  split; [by apply Demo_normalize_whitespace|].
  split; [by apply Demo_normalize_whitespace|].
  simpl. by rewrite !bind_app.
Qed.

(** * The properties of the specification *)

(** C1 (determinism).  For a call with [length >= 8] and
    [iterations >= 100,000] there is one outcome and one sequence of calls to
    the provider, the same from every starting log: the call reads nothing but
    its arguments and the host's functions.  On a host whose provider meets
    the contract, with the iteration count and the bit length [length * 16]
    below [2^32], the outcome is a password, so any two calls with the same
    arguments return the same string. *)
Theorem C1_generatePassword_deterministic
    (H : Host) (masterPhrase : jsstring) (number : Z) (options : GenerateOptions) :
  8 <= default 20 (o_length options) ->
  100000 <= default 600000 (o_iterations options) ->
  exists r evs,
    (forall log, generatePassword H masterPhrase number options log = (r, log ++ evs))
    /\ (forall sc,
          provider H = Some sc -> WebCryptoContract sc ->
          default 600000 (o_iterations options) < 2 ^ 32 ->
          default 20 (o_length options) * 16 < 2 ^ 32 ->
          exists password, r = inr password).
Proof.
  intros Hlen Hit.
  destruct (generatePassword_runs H masterPhrase number options) as (r & evs & Hruns).
  exists r, evs. split; [exact Hruns|].
  intros sc Hsc _ Hmax _.
  destruct (generatePassword_valid H masterPhrase number options sc Hsc Hit Hmax Hlen)
    as (password & evs' & Hvalid & _).
  exists password.
  by destruct (runs_inj _ _ _ _ _ Hruns Hvalid).
Qed.

Lemma C1_generatePassword_deterministic_witness :
  exists r evs,
    (forall log,
        generatePassword Demo.host (js "correct horse battery staple") 1
          (Demo.options 16 100000) log = (r, log ++ evs))
    /\ exists password, r = inr password.
Proof.
  destruct (C1_generatePassword_deterministic Demo.host
              (js "correct horse battery staple") 1 (Demo.options 16 100000))
    as (r & evs & Hruns & Hpassword); [simpl; lia..|].
  exists r, evs. split; [exact Hruns|].
  apply (Hpassword Demo.subtle).
  - reflexivity.
  - apply Demo_subtle_contract.
  - reflexivity.
  - reflexivity.
Defined.

(** C2 (class coverage).  Every valid call, with the iteration count and the
    bit length [length * 16] below [2^32], returns a password that contains a
    lowercase letter, an uppercase letter, a digit and a symbol, wherever the
    shuffle has put them. *)
Theorem C2_class_coverage
    (H : Host) (sc : SubtleCrypto) (masterPhrase : jsstring) (number : Z)
    (options : GenerateOptions) :
  provider H = Some sc -> WebCryptoContract sc ->
  8 <= default 20 (o_length options) ->
  default 20 (o_length options) * 16 < 2 ^ 32 ->
  100000 <= default 600000 (o_iterations options) < 2 ^ 32 ->
  forall log, exists password log',
    generatePassword H masterPhrase number options log = (inr password, log')
    /\ covers_all_classes password = true.
Proof.
  intros Hsc Hc Hlen _ [Hit Hmax] log.
  destruct (generatePassword_valid H masterPhrase number options sc Hsc Hit Hmax Hlen)
    as (password & evs & Hruns & Hperm).
  exists password. eexists. split; [apply Hruns|].
  eapply mapped_covers. by apply Hperm.
Qed.

Lemma C2_class_coverage_witness :
  exists password log',
    generatePassword Demo.host (js "correct horse battery staple") 1
      (Demo.options 16 100000) [] = (inr password, log')
    /\ covers_all_classes password = true.
Proof.
  apply (C2_class_coverage Demo.host Demo.subtle
           (js "correct horse battery staple") 1 (Demo.options 16 100000)).
  - reflexivity.
  - apply Demo_subtle_contract.
  - simpl. lia.
  - reflexivity.
  - split; [simpl; lia|reflexivity].
Defined.

(** C3 (length invariant and its boundary).  With a valid iteration count
    below [2^32], a call with [length >= 8] (and [length * 16] below [2^32])
    returns exactly [length] characters, a call with [length = 7] fails with
    the validation error, and a call with [length = 8] succeeds. *)
Theorem C3_length_invariant
    (H : Host) (sc : SubtleCrypto) (masterPhrase : jsstring) (number : Z)
    (context : option jsstring) (len iterations : Z) :
  provider H = Some sc -> WebCryptoContract sc ->
  100000 <= iterations < 2 ^ 32 ->
  8 <= len -> len * 16 < 2 ^ 32 ->
  forall log,
    (exists password log',
        generatePassword H masterPhrase number
          {| o_context := context; o_length := Some len; o_iterations := Some iterations |}
          log = (inr password, log')
        /\ Z.of_nat (length password) = len)
    /\ fst (generatePassword H masterPhrase number
              {| o_context := context; o_length := Some 7; o_iterations := Some iterations |}
              log) = inl ValidationError
    /\ (exists password log',
           generatePassword H masterPhrase number
             {| o_context := context; o_length := Some 8; o_iterations := Some iterations |}
             log = (inr password, log')
           /\ length password = 8%nat).
Proof.
  intros Hsc Hc [Hit Hmax] Hlen _ log. repeat split.
  - destruct (generatePassword_valid H masterPhrase number
                {| o_context := context; o_length := Some len;
                   o_iterations := Some iterations |} sc Hsc Hit Hmax Hlen)
      as (password & evs & Hruns & Hperm).
    exists password. eexists. split; [apply Hruns|].
    rewrite (Hperm Hc), length_mapped by done. simpl. lia.
  - rewrite (generatePassword_short H masterPhrase number
               {| o_context := context; o_length := Some 7;
                  o_iterations := Some iterations |} sc Hsc Hit Hmax);
      [done|simpl; lia].
  - destruct (generatePassword_valid H masterPhrase number
                {| o_context := context; o_length := Some 8;
                   o_iterations := Some iterations |} sc Hsc Hit Hmax
                ltac:(simpl; lia))
      as (password & evs & Hruns & Hperm).
    exists password. eexists. split; [apply Hruns|].
    rewrite (Hperm Hc), length_mapped; simpl; lia.
Qed.

Lemma C3_length_invariant_witness :
  (exists password log',
      generatePassword Demo.host (js "correct horse battery staple") 1
        (Demo.options 16 100000) [] = (inr password, log')
      /\ Z.of_nat (length password) = 16)
  /\ fst (generatePassword Demo.host (js "correct horse battery staple") 1
            (Demo.options 7 100000) []) = inl ValidationError
  /\ (exists password log',
         generatePassword Demo.host (js "correct horse battery staple") 1
           (Demo.options 8 100000) [] = (inr password, log')
         /\ length password = 8%nat).
Proof.
  apply (C3_length_invariant Demo.host Demo.subtle
           (js "correct horse battery staple") 1 (Some (js "example.com")) 16 100000).
  - reflexivity.
  - apply Demo_subtle_contract.
  - split; [lia|reflexivity].
  - lia.
  - reflexivity.
Defined.



(** C5, as the code has it (alphabet sizes and the fill).  The classes hold
    26, 26, 10 and 27 characters and concatenate to a combined alphabet of 89;
    the mapper fills every position from 4 on with the combined-alphabet
    character at the selected key byte modulo 89. *)
Theorem C5_combined_alphabet (keyBytes : bytes) (len : Z) :
  8 <= len ->
  length LOWER = 26%nat /\ length UPPER = 26%nat /\ length DIGITS = 10%nat
  /\ length SYMBOLS = 27%nat
  /\ COMBINED = LOWER ++ UPPER ++ DIGITS ++ SYMBOLS
  /\ length COMBINED = 89%nat
  /\ exists password,
       mapBytesToPassword keyBytes len = inr password
       /\ forall i : nat,
            (4 <= i)%nat -> Z.of_nat i < len ->
            password !! i
            = COMBINED !! Z.to_nat (bytesToInt (keyBytes !! (i mod length keyBytes)%nat) mod 89).
Proof.
  intros Hlen. do 6 (split; [reflexivity|]).
  exists (mapped keyBytes len). split; [by apply mapBytesToPassword_valid|].
  intros i Hi Hilen. unfold mapped.
  rewrite lookup_app_r by (simpl; lia).
  rewrite list_lookup_fmap, lookup_seq_lt by (simpl; lia).
  cbn [length fmap option_fmap option_map].
  replace (4 + (i - 4))%nat with i by lia.
  destruct alphabets_nonempty as (_ & _ & _ & _ & Hc).
  by rewrite <- (proj1 (pick_chosen keyBytes COMBINED i Hc)).
Qed.

Lemma C5_combined_alphabet_witness :
  length LOWER = 26%nat /\ length UPPER = 26%nat /\ length DIGITS = 10%nat
  /\ length SYMBOLS = 27%nat
  /\ COMBINED = LOWER ++ UPPER ++ DIGITS ++ SYMBOLS
  /\ length COMBINED = 89%nat
  /\ exists password,
       mapBytesToPassword (replicate 64 "Z"%byte) 8 = inr password
       /\ forall i : nat,
            (4 <= i)%nat -> Z.of_nat i < 8 ->
            password !! i
            = COMBINED !! Z.to_nat
                (bytesToInt (replicate 64 "Z"%byte !! (i mod length (replicate 64 "Z"%byte))%nat)
                 mod 89).
Proof.
  apply (C5_combined_alphabet (replicate 64 "Z"%byte) 8). lia.
Defined.

(** C5 as stated fails: there are 27 symbols and 89 characters in all, not 30
    and 92.  On key bytes all equal to 90 the mapper emits [b], the character
    at 90 mod 89 = 1, at the positions from 4 on; 90 mod 92 = 90 is no index
    of the combined alphabet. *)
Lemma C5_counterexample :
  length SYMBOLS <> 30%nat
  /\ length COMBINED <> 92%nat
  /\ mapBytesToPassword (replicate 64 "Z"%byte) 8 = inr (js "mM0)bbbb")
  /\ COMBINED !! Z.to_nat (bytesToInt (Some "Z"%byte) mod 92) = None.
Proof. repeat split; by vm_compute. Qed.

(** C6, as the code has it (an empty master phrase is not rejected).  The
    generator never inspects the master phrase: when it is empty, or trims to
    empty, a call with a valid length and iteration count (the count and the
    bit length [length * 16] below [2^32]) derives the key from the empty
    byte string and returns a password of [length] characters. *)
Theorem C6_empty_master_phrase_accepted
    (H : Host) (sc : SubtleCrypto) (masterPhrase : jsstring) (number : Z)
    (options : GenerateOptions) :
  provider H = Some sc -> WebCryptoContract sc ->
  normText H masterPhrase = [] ->
  8 <= default 20 (o_length options) ->
  default 20 (o_length options) * 16 < 2 ^ 32 ->
  100000 <= default 600000 (o_iterations options) < 2 ^ 32 ->
  forall log, exists password salt evs,
    generatePassword H masterPhrase number options log
    = (inr password,
       log ++ EvDigest (encode (payload H (default [] (o_context options)) number))
           :: EvDeriveBits [] salt (default 600000 (o_iterations options))
                (Z.max 512 (default 20 (o_length options) * 16))
           :: evs)
    /\ Z.of_nat (length password) = default 20 (o_length options).
Proof.
  intros Hsc Hc Hempty Hlen _ [Hit Hmax] log.
  destruct (generatePassword_valid H masterPhrase number options sc Hsc Hit Hmax Hlen)
    as (password & evs & Hruns & Hperm).
  rewrite Hempty in Hruns.
  exists password. eexists _, evs. split; [apply Hruns|].
  rewrite (Hperm Hc), length_mapped by done. lia.
Qed.

Lemma C6_empty_master_phrase_accepted_witness :
  exists password salt evs,
    generatePassword Demo.host (js "  ") 1 (Demo.options 16 100000) []
    = (inr password,
       [] ++ EvDigest (encode (payload Demo.host (js "example.com") 1))
          :: EvDeriveBits [] salt 100000 (Z.max 512 (16 * 16))
          :: evs)
    /\ Z.of_nat (length password) = 16.
Proof.
  apply (C6_empty_master_phrase_accepted Demo.host Demo.subtle (js "  ") 1
           (Demo.options 16 100000)).
  - reflexivity.
  - apply Demo_subtle_contract.
  - reflexivity.
  - simpl. lia.
  - reflexivity.
  - split; [simpl; lia|reflexivity].
Defined.

(** C6 as stated fails: with the empty master phrase and default options, and
    with a master phrase of two spaces, the call returns a password instead of
    failing with the validation error. *)
Lemma C6_counterexample :
  fst (generatePassword Demo.host [] 1 Demo.defaults [])
    = inr (js "oI:a0Q)O,+&(c=9ZjXDL")
  /\ fst (generatePassword Demo.host (js "  ") 1 Demo.defaults [])
    = inr (js "oI:a0Q)O,+&(c=9ZjXDL")
  /\ fst (generatePassword Demo.host [] 1 Demo.defaults [])
    <> inl ValidationError.
Proof. repeat split; by vm_compute. Qed.

(** C7, as the code has it (order of validation).  Only the iteration floor is
    checked up front: a call with [iterations < 100,000] fails with the
    configuration error before any call to the provider, also when the length
    is invalid.  The length is checked by the mapper: a call with
    [length < 8] and an iteration count from 100,000 up to [2^32 - 1] fails
    with the validation error after the salt has been hashed and 512 bits of
    key have been derived, and before the shuffle. *)
Theorem C7_validation_order
    (H : Host) (sc : SubtleCrypto) (masterPhrase : jsstring) (number : Z)
    (context : option jsstring) (len iterations : Z) :
  provider H = Some sc -> len < 8 ->
  forall log,
    (iterations < 100000 ->
     generatePassword H masterPhrase number
       {| o_context := context; o_length := Some len; o_iterations := Some iterations |}
       log = (inl ConfigurationError, log))
    /\ (100000 <= iterations < 2 ^ 32 ->
        generatePassword H masterPhrase number
          {| o_context := context; o_length := Some len; o_iterations := Some iterations |}
          log
        = (inl ValidationError,
           log ++ [EvDigest (encode (payload H (default [] context) number));
                   EvDeriveBits (encode (normText H masterPhrase))
                     (salt_of H sc (default [] context) number) iterations 512])).
Proof.
  intros Hsc Hlen log. split.
  - intros Hit.
    rewrite (generatePassword_low_iterations H masterPhrase number
               {| o_context := context; o_length := Some len;
                  o_iterations := Some iterations |} Hit).
    by rewrite app_nil_r.
  - intros [Hit Hmax].
    apply (generatePassword_short H masterPhrase number
             {| o_context := context; o_length := Some len;
                o_iterations := Some iterations |} sc Hsc Hit Hmax Hlen).
Qed.

Lemma C7_validation_order_witness :
  generatePassword Demo.host (js "x") 1 (Demo.options 7 50000) []
    = (inl ConfigurationError, [])
  /\ generatePassword Demo.host (js "x") 1 (Demo.options 7 100000) []
    = (inl ValidationError,
       [] ++ [EvDigest (encode (payload Demo.host (js "example.com") 1));
              EvDeriveBits (encode (normText Demo.host (js "x")))
                (salt_of Demo.host Demo.subtle (js "example.com") 1) 100000 512]).
Proof.
  split.
  - apply (C7_validation_order Demo.host Demo.subtle (js "x") 1
             (Some (js "example.com")) 7 50000); [reflexivity|lia|lia].
  - apply (C7_validation_order Demo.host Demo.subtle (js "x") 1
             (Some (js "example.com")) 7 100000);
      [reflexivity|lia|split; [lia|reflexivity]].
Defined.

(** C7 as stated fails: with [length = 7] and [iterations = 100,000] the
    call reaches the validation error only after one hash and one key
    derivation, and with [length = 7] and [iterations = 50,000] the error is
    the configuration error. *)
Lemma C7_counterexample :
  generatePassword Demo.host (js "x") 1 (Demo.options 7 100000) []
    = (inl ValidationError,
       [EvDigest (encode (js "pwgen-salt-v1|example.com|1"));
        EvDeriveBits (encode (js "x"))
          (take 16 (digest Demo.subtle (encode (js "pwgen-salt-v1|example.com|1"))))
          100000 512])
  /\ snd (generatePassword Demo.host (js "x") 1 (Demo.options 7 100000) []) <> []
  /\ fst (generatePassword Demo.host (js "x") 1 (Demo.options 7 50000) [])
     <> inl ValidationError.
Proof. repeat split; by vm_compute. Qed.

(** C8, as the code has it (normalization of the inputs).  The master phrase,
    the context and the string form of the rotation number are each put in
    compatibility composition form (NFKC) and trimmed before use: the salt is
    the hash of the tag, the normalized context and the normalized number,
    and the key is derived from the normalized master phrase. *)
Theorem C8_inputs_normalized_NFKC
    (H : Host) (sc : SubtleCrypto) (masterPhrase : jsstring) (number : Z)
    (options : GenerateOptions) :
  provider H = Some sc ->
  100000 <= default 600000 (o_iterations options) ->
  forall log, exists r evs,
    generatePassword H masterPhrase number options log
    = (r,
       log ++ EvDigest
                (encode (js "pwgen-salt-v1" ++ js "|"
                         ++ trim (normalize H NFKC (default [] (o_context options)))
                         ++ js "|"
                         ++ trim (normalize H NFKC (Number_toString H number))))
           :: EvDeriveBits
                (encode (trim (normalize H NFKC masterPhrase)))
                (salt_of H sc (default [] (o_context options)) number)
                (default 600000 (o_iterations options))
                (Z.max 512 (default 20 (o_length options) * 16))
           :: evs).
Proof.
  intros Hsc Hit log.
  destruct (Z.lt_ge_cases (default 600000 (o_iterations options)) (2 ^ 32))
    as [Hmax|Hmax].
  - destruct (Z.lt_ge_cases (default 20 (o_length options)) 8) as [Hlen|Hlen].
    + exists (inl ValidationError), [].
      rewrite (generatePassword_short H masterPhrase number options sc Hsc
                 Hit Hmax Hlen).
      by rewrite (Z.max_l 512) by lia.
    + destruct (generatePassword_valid H masterPhrase number options sc Hsc
                  Hit Hmax Hlen) as (password & evs & Hruns & _).
      exists (inr password), evs. apply Hruns.
  - eexists _, [].
    apply (generatePassword_out_of_range H masterPhrase number options sc Hsc Hmax).
Qed.

Lemma C8_inputs_normalized_NFKC_witness :
  exists r evs,
    generatePassword Demo.host [0xFB01] 1 (Demo.options 16 100000) []
    = (r,
       [] ++ EvDigest
               (encode (js "pwgen-salt-v1" ++ js "|"
                        ++ trim (normalize Demo.host NFKC (js "example.com"))
                        ++ js "|"
                        ++ trim (normalize Demo.host NFKC (Number_toString Demo.host 1))))
          :: EvDeriveBits
               (encode (trim (normalize Demo.host NFKC [0xFB01])))
               (salt_of Demo.host Demo.subtle (js "example.com") 1)
               100000 (Z.max 512 (16 * 16))
          :: evs).
Proof.
  apply (C8_inputs_normalized_NFKC Demo.host Demo.subtle [0xFB01] 1
           (Demo.options 16 100000)).
  - reflexivity.
  - simpl. lia.
Defined.

(** C8 as stated fails: the form is NFKC, not NFC.  The ligature U+FB01 is
    unchanged by canonical composition, while the generator derives the key
    from the two letters [fi]. *)
Lemma C8_counterexample :
  trim (normalize Demo.host NFC [0xFB01]) = [0xFB01]
  /\ normText Demo.host [0xFB01] = js "fi"
  /\ normText Demo.host [0xFB01] <> trim (normalize Demo.host NFC [0xFB01])
  /\ snd (generatePassword Demo.host [0xFB01] 1 (Demo.options 7 100000) [])
     = [EvDigest (encode (js "pwgen-salt-v1|example.com|1"));
        EvDeriveBits (encode (js "fi"))
          (salt_of Demo.host Demo.subtle (js "example.com") 1) 100000 512].
Proof. repeat split; by vm_compute. Qed.

(** C9 (normalization equivalence).  Calls whose master phrases, contexts and
    rotation-number strings agree after NFKC normalization and trimming run
    identically and so return the same password; in particular, on a host
    whose normalizer treats white space as Unicode prescribes, white space
    added around the master phrase or the context changes nothing. *)
Theorem C9_normalization_equivalence (H : Host) :
  (forall masterPhrase1 masterPhrase2 number1 number2 context1 context2 len iterations log,
      normText H masterPhrase1 = normText H masterPhrase2 ->
      normText H (default [] context1) = normText H (default [] context2) ->
      normText H (Number_toString H number1) = normText H (Number_toString H number2) ->
      generatePassword H masterPhrase1 number1
        {| o_context := context1; o_length := len; o_iterations := iterations |} log
      = generatePassword H masterPhrase2 number2
          {| o_context := context2; o_length := len; o_iterations := iterations |} log)
  /\ (whitespace_stable H ->
      forall pre post pre' post' masterPhrase context number len iterations log,
         forallb isWhiteSpace pre = true -> forallb isWhiteSpace post = true ->
         forallb isWhiteSpace pre' = true -> forallb isWhiteSpace post' = true ->
         generatePassword H (pre ++ masterPhrase ++ post) number
           {| o_context := Some (pre' ++ context ++ post'); o_length := len;
              o_iterations := iterations |} log
         = generatePassword H masterPhrase number
             {| o_context := Some context; o_length := len;
                o_iterations := iterations |} log).
Proof.
  assert (Hequiv : forall masterPhrase1 masterPhrase2 number1 number2 context1 context2
                          len iterations log,
      normText H masterPhrase1 = normText H masterPhrase2 ->
      normText H (default [] context1) = normText H (default [] context2) ->
      normText H (Number_toString H number1) = normText H (Number_toString H number2) ->
      generatePassword H masterPhrase1 number1
        {| o_context := context1; o_length := len; o_iterations := iterations |} log
      = generatePassword H masterPhrase2 number2
          {| o_context := context2; o_length := len; o_iterations := iterations |} log).
  { intros mp1 mp2 n1 n2 c1 c2 len iterations log Hmp Hctx Hnum.
    unfold generatePassword, deterministicSalt, pbkdf2, payload.
    cbn [o_context o_length o_iterations].
    by rewrite Hmp, Hctx, Hnum. }
  split; [exact Hequiv|].
  intros Hstable pre post pre' post' mp ctx n len iterations log Hpre Hpost Hpre' Hpost'.
  apply Hequiv; [|simpl|done]; by apply normText_whitespace.
Qed.

Lemma C9_normalization_equivalence_witness :
  generatePassword Demo.host [0xFF21; 0x00A0] 1 (Demo.options 16 100000) []
    = generatePassword Demo.host (js "A") 1 (Demo.options 16 100000) []
  /\ generatePassword Demo.host (js "  phrase ") 1
       {| o_context := Some (js " example.com  "); o_length := Some 16;
          o_iterations := Some 100000 |} []
     = generatePassword Demo.host (js "phrase") 1
         {| o_context := Some (js "example.com"); o_length := Some 16;
            o_iterations := Some 100000 |} [].
Proof.
  destruct (C9_normalization_equivalence Demo.host) as [Hequiv Hspace].
  split.
  - apply (Hequiv [0xFF21; 0x00A0] (js "A") 1 1
             (Some (js "example.com")) (Some (js "example.com")));
      reflexivity.
  - apply (Hspace Demo_host_whitespace_stable
             (js "  ") (js " ") (js " ") (js "  ") (js "phrase")
             (js "example.com") 1 (Some 16) (Some 100000) []);
      reflexivity.
Defined.

(** C10, as the code has it (no maximum length of its own).  The generator
    compares [length] with no upper bound: every call with [length >= 8], a
    bit length [length * 16] below [2^32] and an iteration count from 100,000
    up to [2^32 - 1] returns exactly [length] characters, far beyond the
    slider's 120. *)
Theorem C10_no_maximum_length
    (H : Host) (sc : SubtleCrypto) (masterPhrase : jsstring) (number : Z)
    (context : option jsstring) (len iterations : Z) :
  provider H = Some sc -> WebCryptoContract sc ->
  100000 <= iterations < 2 ^ 32 ->
  8 <= len -> len * 16 < 2 ^ 32 ->
  forall log, exists password log',
    generatePassword H masterPhrase number
      {| o_context := context; o_length := Some len; o_iterations := Some iterations |}
      log = (inr password, log')
    /\ Z.of_nat (length password) = len.
Proof.
  intros Hsc Hc [Hit Hmax] Hlen _ log.
  destruct (generatePassword_valid H masterPhrase number
              {| o_context := context; o_length := Some len;
                 o_iterations := Some iterations |} sc Hsc Hit Hmax Hlen)
    as (password & evs & Hruns & Hperm).
  exists password. eexists. split; [apply Hruns|].
  rewrite (Hperm Hc), length_mapped by done. simpl. lia.
Qed.

Lemma C10_no_maximum_length_witness :
  exists password log',
    generatePassword Demo.host (js "correct horse battery staple") 1
      (Demo.options 121 100000) [] = (inr password, log')
    /\ Z.of_nat (length password) = 121.
Proof.
  apply (C10_no_maximum_length Demo.host Demo.subtle
           (js "correct horse battery staple") 1 (Some (js "example.com")) 121 100000).
  - reflexivity.
  - apply Demo_subtle_contract.
  - split; [lia|reflexivity].
  - lia.
  - reflexivity.
Defined.

(** C10 as stated fails: an iteration count of [2^32] is at least 100,000,
    yet the call with [length = 121] returns no password: the count is no
    32-bit unsigned number and the call of [deriveBits] throws a
    [TypeError]. *)
Lemma C10_counterexample :
  generatePassword Demo.host (js "correct horse battery staple") 1
    (Demo.options 121 4294967296) []
  = (inl (TypeError (engine_message Demo.host "TypeError")),
     [EvDigest (encode (js "pwgen-salt-v1|example.com|1"));
      EvDeriveBits (encode (js "correct horse battery staple"))
        (salt_of Demo.host Demo.subtle (js "example.com") 1)
        4294967296 (121 * 16)])
  /\ forall password,
       fst (generatePassword Demo.host (js "correct horse battery staple") 1
              (Demo.options 121 4294967296) []) <> inr password.
Proof. split; [by vm_compute|]. intros password. by vm_compute. Qed.

(** * Further properties of the code *)

(** ** The shuffle, block by block *)

Section ShuffleExact.
Context (H : Host) (sc : SubtleCrypto) (Hsc : provider H = Some sc).
Context (Hc : WebCryptoContract sc) (keyBytes : bytes).

Local Abbreviation sign_event := (fun m => EvSign keyBytes (prf_message sc keyBytes m)).

Lemma prf_block_length (m : nat) : length (prf_block sc keyBytes m) = 32%nat.
Proof. destruct Hc as (_ & Hsign & _). destruct m; apply Hsign. Qed.

Lemma refill_exact (m j : nat) :
  (j <= 32)%nat ->
  exists m1 j1 evs,
    runs (if decide (length (prf_block sc keyBytes m) <= j)%nat then
            prf' ← hmacSha256 H keyBytes
                     (concatBytes [prf_block sc keyBytes m; encode (js "shuffle-next")]);
            mret (prf', 0%nat)
          else mret (prf_block sc keyBytes m, j))
         (inr (prf_block sc keyBytes m1, j1)) evs
    /\ ((j = 32%nat /\ m1 = S m /\ j1 = 0%nat /\ evs = [sign_event (S m)])
        \/ ((j < 32)%nat /\ m1 = m /\ j1 = j /\ evs = [])).
Proof.
  intros Hj. rewrite prf_block_length.
  destruct (decide (32 <= j)%nat) as [Hge|Hlt].
  - exists (S m), 0%nat, [sign_event (S m)]. split.
    + eapply (runs_bind _ _ _ [_] _ []); [by apply hmacSha256_runs|apply runs_ret].
    + left. repeat split. lia.
  - exists m, j, []. split; [apply runs_ret|].
    right. repeat split. lia.
Qed.

Lemma refills_step_refill (i : nat) : refills (S i) 32 = S (refills i 1).
Proof.
  unfold refills. destruct i as [|i]; [done|].
  replace (S i + 32)%nat with (S i + 1 * 32)%nat by lia.
  rewrite Nat.div_add by lia.
  replace (i + 1)%nat with (S i) by lia. lia.
Qed.

Lemma refills_step_keep (i j : nat) : (j < 32)%nat -> refills (S i) j = refills i (S j).
Proof.
  intros Hj. unfold refills. destruct i as [|i].
  - by rewrite Nat.div_small by lia.
  - f_equal. lia.
Qed.

Lemma put_index_prop_NaN (arr : jsarray) (n : nat) (v : option Z) :
  prop_NaN (put arr (Index n) v) = prop_NaN arr.
Proof. done. Qed.

Lemma shuffle_loop_exact (i : nat) : forall (m j : nat) (arr : jsarray),
  (j <= 32)%nat -> (i = 0 \/ i < length (elems arr))%nat ->
  exists arr',
    runs (shuffle_loop H keyBytes i (prf_block sc keyBytes m) j arr) (inr arr')
         (sign_event <$> seq (S m) (refills i j))
    /\ elems arr' ≡ₚ elems arr
    /\ prop_NaN arr' = prop_NaN arr.
Proof.
  induction i as [|i IH]; intros m j arr Hj Hi.
  - exists arr. split; [apply runs_ret|done].
  - destruct Hi as [|Hi]; [done|].
    destruct (refill_exact m j Hj) as (m1 & j1 & evs1 & Hrefill & Hcase).
    assert (Hj1 : (j1 < 32)%nat) by (destruct Hcase as [(_&_&->&_)|(?&_&->&_)]; lia).
    destruct (lookup_lt_is_Some_2 (prf_block sc keyBytes m1) j1
                ltac:(rewrite prf_block_length; lia)) as [b Hb].
    destruct (remainder_key_Some b (S i + 1) ltac:(lia)) as (kn & Hkn & Hknlt).
    set (arr1 := put (put arr (Index (S i)) (get arr (Index kn))) (Index kn)
                     (get arr (Index (S i)))).
    assert (Hswap : elems arr1 ≡ₚ elems arr) by (apply swap_Permutation; lia).
    destruct (IH m1 (S j1) arr1 ltac:(lia) ltac:(right; rewrite Hswap; lia))
      as (arr' & Hrest & Hperm & HNaN).
    exists arr'. split; [|split].
    + assert (Hevs : sign_event <$> seq (S m) (refills (S i) j)
                     = evs1 ++ (sign_event <$> seq (S m1) (refills i (S j1)))).
      { destruct Hcase as [(-> & -> & -> & ->)|(Hlt & -> & -> & ->)].
        - by rewrite refills_step_refill.
        - by rewrite refills_step_keep. }
      rewrite Hevs. cbn [shuffle_loop].
      eapply runs_bind; [exact Hrefill|].
      cbn beta iota. rewrite Hb, Hkn. exact Hrest.
    + by rewrite Hperm.
    + rewrite HNaN. subst arr1. by rewrite !put_index_prop_NaN.
Qed.

Lemma deterministicShuffle_exact (arr : jsarray) :
  exists arr',
    runs (deterministicShuffle H arr keyBytes) (inr arr')
         (shuffle_events sc keyBytes (shuffle_blocks (length (elems arr))))
    /\ elems arr' ≡ₚ elems arr
    /\ prop_NaN arr' = prop_NaN arr.
Proof.
  destruct (shuffle_loop_exact (length (elems arr) - 1) 0 0 arr ltac:(lia))
    as (arr' & Hloop & Hperm & HNaN).
  { destruct (elems arr); simpl; lia. }
  exists arr'. split; [|done].
  assert (Hevs : shuffle_events sc keyBytes (shuffle_blocks (length (elems arr)))
                 = [sign_event 0%nat]
                   ++ (sign_event <$> seq 1 (refills (length (elems arr) - 1) 0))).
  { unfold shuffle_events, shuffle_blocks.
    destruct (elems arr) as [|c0 [|c1 rest]]; [done..|].
    cbn [length]. replace (S (S (length rest)) - 1)%nat with (S (length rest)) by lia.
    unfold refills. by rewrite Nat.add_0_r. }
  rewrite Hevs. unfold deterministicShuffle.
  eapply runs_bind; [by apply hmacSha256_runs|exact Hloop].
Qed.

End ShuffleExact.

(** ** The mapper, position by position *)

Lemma mapped_lookup_fill (keyBytes : bytes) (len : Z) (i : nat) :
  (4 <= i)%nat -> Z.of_nat i < len ->
  mapped keyBytes len !! i
  = COMBINED !! Z.to_nat (bytesToInt (keyBytes !! (i mod length keyBytes)%nat) mod 89).
Proof.
  intros Hi Hilen. unfold mapped.
  rewrite lookup_app_r by (simpl; lia).
  rewrite list_lookup_fmap, lookup_seq_lt by (simpl; lia).
  cbn [length fmap option_fmap option_map].
  replace (4 + (i - 4))%nat with i by lia.
  destruct alphabets_nonempty as (_ & _ & _ & _ & Hc).
  by rewrite <- (proj1 (pick_chosen keyBytes COMBINED i Hc)).
Qed.

Lemma COMBINED_classes (c : Z) :
  c ∈ LOWER \/ c ∈ UPPER \/ c ∈ DIGITS \/ c ∈ SYMBOLS -> c ∈ COMBINED.
Proof.
  change COMBINED with (LOWER ++ UPPER ++ DIGITS ++ SYMBOLS ++ []).
  rewrite !elem_of_app. tauto.
Qed.

Lemma mapped_alphabet (keyBytes : bytes) (len : Z) :
  Forall (fun c => c ∈ COMBINED) (mapped keyBytes len).
Proof.
  destruct alphabets_nonempty as (Hl & Hu & Hd & Hs & Hc).
  unfold mapped. apply Forall_app. split.
  - repeat apply Forall_cons_2; [..|apply Forall_nil_2];
      apply COMBINED_classes.
    + left. by apply pick_chosen.
    + right; left. by apply pick_chosen.
    + right; right; left. by apply pick_chosen.
    + right; right; right. by apply pick_chosen.
  - apply Forall_fmap, Forall_forall. intros i _. by apply pick_chosen.
Qed.

Lemma COMBINED_printable (c : Z) : c ∈ COMBINED -> 0x21 <= c <= 0x7E.
Proof.
  intros Hc.
  assert (Hall : forallb (fun c => (0x21 <=? c) && (c <=? 0x7E)) COMBINED = true)
    by reflexivity.
  rewrite forallb_forall in Hall.
  apply list_elem_of_In, Hall, andb_true_iff in Hc. lia.
Qed.

Lemma fmap_seq_const {A} (f : nat -> A) (c : A) (start n : nat) :
  (forall i, f i = c) -> f <$> seq start n = replicate n c.
Proof.
  intros Hf. revert start. induction n as [|n IH]; intros start; [done|].
  simpl. by rewrite Hf, IH.
Qed.

(** X1.  For every key, also an empty one, and every [length >= 8] the mapper
    returns [length] characters: a lowercase letter, an uppercase letter, a
    digit and a symbol in the first four positions, in that order, and
    characters of the combined alphabet everywhere. *)
Theorem X1_mapper_layout (keyBytes : bytes) (len : Z) :
  8 <= len ->
  exists c0 c1 c2 c3 rest,
    mapBytesToPassword keyBytes len = inr (c0 :: c1 :: c2 :: c3 :: rest)
    /\ Z.of_nat (length rest) = len - 4
    /\ isLower c0 = true /\ isUpper c1 = true
    /\ isDigit c2 = true /\ isSymbol c3 = true
    /\ Forall (fun c => c ∈ COMBINED) (c0 :: c1 :: c2 :: c3 :: rest).
Proof.
  intros Hlen. destruct alphabets_nonempty as (Hl & Hu & Hd & Hs & _).
  eexists _, _, _, _, _. split; [by apply mapBytesToPassword_valid|].
  split; [rewrite length_fmap, length_seq; lia|].
  split; [by apply (class_of_alphabet _ LOWER), pick_chosen|].
  split; [by apply (class_of_alphabet _ UPPER), pick_chosen|].
  split; [by apply (class_of_alphabet _ DIGITS), pick_chosen|].
  split; [by apply (class_of_alphabet _ SYMBOLS), pick_chosen|].
  apply (mapped_alphabet keyBytes len).
Qed.

Lemma X1_mapper_layout_witness :
  exists c0 c1 c2 c3 rest,
    mapBytesToPassword [] 12 = inr (c0 :: c1 :: c2 :: c3 :: rest)
    /\ Z.of_nat (length rest) = 12 - 4
    /\ isLower c0 = true /\ isUpper c1 = true
    /\ isDigit c2 = true /\ isSymbol c3 = true
    /\ Forall (fun c => c ∈ COMBINED) (c0 :: c1 :: c2 :: c3 :: rest).
Proof. apply (X1_mapper_layout [] 12). lia. Defined.

(** X2.  On an empty key every byte read is [undefined], which [& 0xff]
    turns into 0: the mapper does not fail and returns the first character of
    each class followed by the first character of the combined alphabet. *)
Theorem X2_mapper_empty_key (len : Z) :
  8 <= len ->
  mapBytesToPassword [] len = inr (js "aA0!" ++ replicate (Z.to_nat len - 4) 0x61).
Proof.
  intros Hlen. rewrite mapBytesToPassword_valid by done.
  unfold mapped. f_equal. f_equal.
  apply fmap_seq_const. intros i. unfold chosen, pick.
  by rewrite lookup_nil.
Qed.

Lemma X2_mapper_empty_key_witness :
  mapBytesToPassword [] 8 = inr (js "aA0!" ++ replicate (Z.to_nat 8 - 4) 0x61).
Proof. apply (X2_mapper_empty_key 8). lia. Defined.

(** X3.  The mapper reads the key cyclically: past position 4 the output
    repeats with the period of the key's length. *)
Theorem X3_mapper_key_reuse (keyBytes : bytes) (len : Z) (i : nat) :
  8 <= len -> keyBytes <> [] -> (4 <= i)%nat ->
  Z.of_nat (i + length keyBytes) < len ->
  exists password,
    mapBytesToPassword keyBytes len = inr password
    /\ password !! (i + length keyBytes)%nat = password !! i.
Proof.
  intros Hlen Hkey Hi Hilen.
  exists (mapped keyBytes len). split; [by apply mapBytesToPassword_valid|].
  rewrite !mapped_lookup_fill by lia.
  assert (length keyBytes <> 0%nat) by (by destruct keyBytes).
  replace (i + length keyBytes)%nat with (i + 1 * length keyBytes)%nat by lia.
  by rewrite Nat.Div0.mod_add.
Qed.

Lemma X3_mapper_key_reuse_witness :
  exists password,
    mapBytesToPassword ["a"; "b"; "c"]%byte 12 = inr password
    /\ password !! (5 + length ["a"; "b"; "c"]%byte)%nat = password !! 5%nat.
Proof.
  apply (X3_mapper_key_reuse ["a"; "b"; "c"]%byte 12 5); [lia|done|lia|simpl; lia].
Defined.

(** ** The shuffle on any array *)

(** X5.  With a provider that meets the contract and a non-empty key the
    shuffle only rearranges: the slots of the result are a permutation of the
    slots of the argument, none is lost, added or turned into [undefined],
    and the property [NaN] of the array is never written. *)
Theorem X5_shuffle_rearranges
    (H : Host) (sc : SubtleCrypto) (arr : jsarray) (keyBytes : bytes) :
  provider H = Some sc -> WebCryptoContract sc -> keyBytes <> [] ->
  forall log, exists arr' log',
    deterministicShuffle H arr keyBytes log = (inr arr', log')
    /\ elems arr' ≡ₚ elems arr
    /\ length (elems arr') = length (elems arr)
    /\ prop_NaN arr' = prop_NaN arr.
Proof.
  intros Hsc Hc _ log.
  destruct (deterministicShuffle_exact H sc Hsc Hc keyBytes arr)
    as (arr' & Hruns & Hperm & HNaN).
  exists arr'. eexists. split; [apply Hruns|].
  split; [done|]. split; [by rewrite Hperm|done].
Qed.

Lemma X5_shuffle_rearranges_witness :
  exists arr' log',
    deterministicShuffle Demo.host (split (js "abcdefgh")) [x01; x02; x03] []
    = (inr arr', log')
    /\ elems arr' ≡ₚ elems (split (js "abcdefgh"))
    /\ length (elems arr') = length (elems (split (js "abcdefgh")))
    /\ prop_NaN arr' = prop_NaN (split (js "abcdefgh")).
Proof.
  apply (X5_shuffle_rearranges Demo.host Demo.subtle (split (js "abcdefgh"))
           [x01; x02; x03]).
  - reflexivity.
  - apply Demo_subtle_contract.
  - done.
Defined.

(** X6.  Under a non-empty key the shuffle draws its bytes from a chain of
    MACs: first of the tag [shuffle-v1], then of the previous block followed
    by [shuffle-next].  For an array of [n] slots it signs exactly
    [1 + (n - 2) / 32] times (once when [n < 2]): one byte per swap, a new
    block only when all 32 bytes of the current one are used. *)
Theorem X6_shuffle_mac_chain
    (H : Host) (sc : SubtleCrypto) (arr : jsarray) (keyBytes : bytes) :
  provider H = Some sc -> WebCryptoContract sc -> keyBytes <> [] ->
  forall log, exists arr' signs,
    deterministicShuffle H arr keyBytes log = (inr arr', log ++ signs)
    /\ signs = shuffle_events sc keyBytes (length signs)
    /\ length signs = (1 + (length (elems arr) - 2) / 32)%nat.
Proof.
  intros Hsc Hc _ log.
  destruct (deterministicShuffle_exact H sc Hsc Hc keyBytes arr)
    as (arr' & Hruns & _).
  assert (Hblocks : shuffle_blocks (length (elems arr))
                    = (1 + (length (elems arr) - 2) / 32)%nat).
  { unfold shuffle_blocks. destruct (length (elems arr)) as [|[|n]]; [done..|].
    by replace (S (S n) - 2)%nat with n by lia. }
  assert (Hlen : length (shuffle_events sc keyBytes (shuffle_blocks (length (elems arr))))
                 = shuffle_blocks (length (elems arr))).
  { unfold shuffle_events. by rewrite length_fmap, length_seq. }
  exists arr', (shuffle_events sc keyBytes (shuffle_blocks (length (elems arr)))).
  split; [apply Hruns|]. split; [by rewrite Hlen|by rewrite Hlen].
Qed.

Lemma X6_shuffle_mac_chain_witness :
  exists arr' signs,
    deterministicShuffle Demo.host (split (replicate 66 0x61%Z)) [x01; x02; x03] []
    = (inr arr', [] ++ signs)
    /\ signs = shuffle_events Demo.subtle [x01; x02; x03] (length signs)
    /\ length signs = (1 + (length (elems (split (replicate 66 0x61%Z))) - 2) / 32)%nat.
Proof.
  apply (X6_shuffle_mac_chain Demo.host Demo.subtle (split (replicate 66 0x61%Z))
           [x01; x02; x03]).
  - reflexivity.
  - apply Demo_subtle_contract.
  - done.
Defined.

(** X7.  Under a non-empty key an array with fewer than two slots is
    returned as it is, and the first MAC is computed all the same. *)
Theorem X7_shuffle_short_array
    (H : Host) (sc : SubtleCrypto) (arr : jsarray) (keyBytes : bytes) :
  provider H = Some sc -> keyBytes <> [] -> (length (elems arr) <= 1)%nat ->
  forall log,
    deterministicShuffle H arr keyBytes log
    = (inr arr, log ++ [EvSign keyBytes (encode (js "shuffle-v1"))]).
Proof.
  intros Hsc _ Hlen log.
  assert (Hruns : runs (deterministicShuffle H arr keyBytes) (inr arr)
                       ([EvSign keyBytes (encode (js "shuffle-v1"))] ++ [])).
  { unfold deterministicShuffle.
    eapply runs_bind; [by apply hmacSha256_runs|].
    replace (length (elems arr) - 1)%nat with 0%nat by lia.
    apply runs_ret. }
  apply Hruns.
Qed.

Lemma X7_shuffle_short_array_witness :
  deterministicShuffle Demo.host (split (js "a")) [x01; x02; x03] []
  = (inr (split (js "a")), [] ++ [EvSign [x01; x02; x03] (encode (js "shuffle-v1"))]).
Proof.
  apply (X7_shuffle_short_array Demo.host Demo.subtle (split (js "a")) [x01; x02; x03]).
  - reflexivity.
  - done.
  - simpl. lia.
Defined.

(** ** The whole pipeline *)

Lemma generatePassword_exact H sc masterPhrase number options :
  provider H = Some sc -> WebCryptoContract sc ->
  100000 <= default 600000 (o_iterations options) < 2 ^ 32 ->
  8 <= default 20 (o_length options) ->
  exists password,
    runs (generatePassword H masterPhrase number options) (inr password)
         (EvDigest (encode (payload H (default [] (o_context options)) number))
          :: EvDeriveBits (encode (normText H masterPhrase))
               (salt_of H sc (default [] (o_context options)) number)
               (default 600000 (o_iterations options))
               (Z.max 512 (default 20 (o_length options) * 16))
          :: shuffle_events sc
               (keyBytes_of H sc masterPhrase number (default [] (o_context options))
                  (default 20 (o_length options)) (default 600000 (o_iterations options)))
               (shuffle_blocks (Z.to_nat (default 20 (o_length options)))))
    /\ password ≡ₚ mapped
         (keyBytes_of H sc masterPhrase number (default [] (o_context options))
            (default 20 (o_length options)) (default 600000 (o_iterations options)))
         (default 20 (o_length options)).
Proof.
  intros Hsc Hc Hit Hlen.
  set (len := default 20 (o_length options)) in *.
  set (iterations := default 600000 (o_iterations options)) in *.
  set (context := default [] (o_context options)).
  set (keyBytes := keyBytes_of H sc masterPhrase number context len iterations).
  destruct (deterministicShuffle_exact H sc Hsc Hc keyBytes (split (mapped keyBytes len)))
    as (arr' & Hshuffle & Hperm & _).
  unfold split in Hperm, Hshuffle. cbn [elems] in Hperm, Hshuffle.
  rewrite length_fmap, length_mapped in Hshuffle by done.
  exists (join (slice0 (elems arr') len)). split.
  - unfold generatePassword. fold len iterations context.
    destruct (Z.ltb_spec iterations 100000) as [?|_]; [lia|].
    eapply (runs_bind _ _ _ [_]); [by apply deterministicSalt_runs|].
    eapply (runs_bind _ _ _ [_]); [apply pbkdf2_runs; [done|lia]|].
    fold (keyBytes_of H sc masterPhrase number context len iterations). fold keyBytes.
    rewrite mapBytesToPassword_valid by done.
    rewrite <- (app_nil_r (shuffle_events _ _ _)).
    eapply (runs_bind _ _ _ [] _ (shuffle_events _ _ _ ++ [])); [apply runs_lift|].
    eapply runs_bind; [exact Hshuffle|apply runs_ret].
  - rewrite slice0_all.
    + rewrite <- (join_split (mapped keyBytes len)).
      by apply join_Permutation.
    + lia.
    + rewrite Hperm, length_fmap, length_mapped by done. lia.
Qed.

Lemma shuffle_events_head sc keyBytes (n : nat) :
  shuffle_events sc keyBytes (shuffle_blocks n)
  = EvSign keyBytes (encode (js "shuffle-v1"))
    :: ((fun m => EvSign keyBytes (prf_message sc keyBytes m))
          <$> seq 1 (shuffle_blocks n - 1)).
Proof.
  unfold shuffle_events, shuffle_blocks.
  destruct n as [|[|n]]; [done..|].
  replace (1 + n / 32 - 1)%nat with (n / 32)%nat by lia. done.
Qed.

(** X4.  The code derives at least two key bytes per character ("Derive >=
    2*length bytes").  In a valid call, with the iteration count and the bit
    length below [2^32], the PBKDF2 output of [max(64, 2 * length)] bytes is
    the key of the shuffle and the key the mapper reads: the password is a
    rearrangement of the mapper's output on that key, the mapper's index
    [i % keyBytes.length] never wraps, and from position 4 on character [i]
    of the mapper's output is decided by key byte [i] alone. *)
Theorem X4_key_covers_every_position
    (H : Host) (sc : SubtleCrypto) (masterPhrase : jsstring) (number : Z)
    (options : GenerateOptions) :
  provider H = Some sc -> WebCryptoContract sc ->
  8 <= default 20 (o_length options) ->
  default 20 (o_length options) * 16 < 2 ^ 32 ->
  100000 <= default 600000 (o_iterations options) < 2 ^ 32 ->
  forall log, exists password premap keyBytes signs,
    generatePassword H masterPhrase number options log
    = (inr password,
       log ++ EvDigest (encode (payload H (default [] (o_context options)) number))
           :: EvDeriveBits (encode (normText H masterPhrase))
                (salt_of H sc (default [] (o_context options)) number)
                (default 600000 (o_iterations options))
                (Z.max 512 (default 20 (o_length options) * 16))
           :: EvSign keyBytes (encode (js "shuffle-v1"))
           :: signs)
    /\ keyBytes
       = deriveBits sc (encode (normText H masterPhrase))
           (salt_of H sc (default [] (o_context options)) number)
           (default 600000 (o_iterations options))
           (Z.max 512 (default 20 (o_length options) * 16))
    /\ Z.of_nat (length keyBytes) = Z.max 64 (default 20 (o_length options) * 2)
    /\ mapBytesToPassword keyBytes (default 20 (o_length options)) = inr premap
    /\ password ≡ₚ premap
    /\ forall i : nat,
         Z.of_nat i < default 20 (o_length options) ->
         (i mod length keyBytes)%nat = i
         /\ ((4 <= i)%nat ->
             premap !! i
             = COMBINED !! Z.to_nat (bytesToInt (keyBytes !! i) mod 89)).
Proof.
  intros Hsc Hc Hlen Hbits Hit log.
  destruct (generatePassword_exact H sc masterPhrase number options Hsc Hc Hit Hlen)
    as (password & Hruns & Hperm).
  rewrite shuffle_events_head in Hruns.
  pose proof (keyBytes_of_length H sc masterPhrase number
                (default [] (o_context options)) (default 20 (o_length options))
                (default 600000 (o_iterations options)) Hc Hit Hbits) as Hkey.
  exists password. eexists _, _, _. split; [apply Hruns|].
  split; [done|]. split; [exact Hkey|].
  split; [by apply mapBytesToPassword_valid|]. split; [exact Hperm|].
  intros i Hi.
  set (keyBytes := keyBytes_of H sc masterPhrase number
                     (default [] (o_context options))
                     (default 20 (o_length options))
                     (default 600000 (o_iterations options))) in *.
  assert (Hmod : (i mod length keyBytes)%nat = i) by (apply Nat.mod_small; lia).
  split; [exact Hmod|].
  intros Hi4. rewrite mapped_lookup_fill by done. by rewrite Hmod.
Qed.

Lemma X4_key_covers_every_position_witness :
  exists password premap keyBytes signs,
    generatePassword Demo.host (js "correct horse battery staple") 1
      (Demo.options 40 100000) []
    = (inr password,
       [] ++ EvDigest (encode (payload Demo.host (js "example.com") 1))
          :: EvDeriveBits (encode (normText Demo.host (js "correct horse battery staple")))
               (salt_of Demo.host Demo.subtle (js "example.com") 1)
               100000 (Z.max 512 (40 * 16))
          :: EvSign keyBytes (encode (js "shuffle-v1"))
          :: signs)
    /\ keyBytes
       = deriveBits Demo.subtle
           (encode (normText Demo.host (js "correct horse battery staple")))
           (salt_of Demo.host Demo.subtle (js "example.com") 1)
           100000 (Z.max 512 (40 * 16))
    /\ Z.of_nat (length keyBytes) = Z.max 64 (40 * 2)
    /\ mapBytesToPassword keyBytes 40 = inr premap
    /\ password ≡ₚ premap
    /\ forall i : nat,
         Z.of_nat i < 40 ->
         (i mod length keyBytes)%nat = i
         /\ ((4 <= i)%nat ->
             premap !! i
             = COMBINED !! Z.to_nat (bytesToInt (keyBytes !! i) mod 89)).
Proof.
  apply (X4_key_covers_every_position Demo.host Demo.subtle
           (js "correct horse battery staple") 1 (Demo.options 40 100000)).
  - reflexivity.
  - apply Demo_subtle_contract.
  - simpl. lia.
  - reflexivity.
  - split; [simpl; lia|reflexivity].
Defined.

(** X8.  The password of a valid call, with the iteration count and the bit
    length below [2^32], is a rearrangement of what the mapper produced from
    the derived key, and so consists of characters of the combined alphabet
    only: printable ASCII, no space, no control character. *)
Theorem X8_password_alphabet
    (H : Host) (sc : SubtleCrypto) (masterPhrase : jsstring) (number : Z)
    (options : GenerateOptions) :
  provider H = Some sc -> WebCryptoContract sc ->
  8 <= default 20 (o_length options) ->
  default 20 (o_length options) * 16 < 2 ^ 32 ->
  100000 <= default 600000 (o_iterations options) < 2 ^ 32 ->
  forall log, exists password premap log',
    generatePassword H masterPhrase number options log = (inr password, log')
    /\ mapBytesToPassword
         (keyBytes_of H sc masterPhrase number (default [] (o_context options))
            (default 20 (o_length options)) (default 600000 (o_iterations options)))
         (default 20 (o_length options)) = inr premap
    /\ password ≡ₚ premap
    /\ Forall (fun c => c ∈ COMBINED /\ 0x21 <= c <= 0x7E) password.
Proof.
  intros Hsc Hc Hlen _ Hit log.
  destruct (generatePassword_exact H sc masterPhrase number options Hsc Hc Hit Hlen)
    as (password & Hruns & Hperm).
  exists password. eexists _, _. split; [apply Hruns|].
  split; [by apply mapBytesToPassword_valid|]. split; [done|].
  rewrite Hperm. eapply Forall_impl; [apply mapped_alphabet|].
  intros c Hcin. split; [done|by apply COMBINED_printable].
Qed.

Lemma X8_password_alphabet_witness :
  exists password premap log',
    generatePassword Demo.host (js "correct horse battery staple") 1
      (Demo.options 16 100000) [] = (inr password, log')
    /\ mapBytesToPassword
         (keyBytes_of Demo.host Demo.subtle (js "correct horse battery staple") 1
            (js "example.com") 16 100000) 16 = inr premap
    /\ password ≡ₚ premap
    /\ Forall (fun c => c ∈ COMBINED /\ 0x21 <= c <= 0x7E) password.
Proof.
  apply (X8_password_alphabet Demo.host Demo.subtle
           (js "correct horse battery staple") 1 (Demo.options 16 100000)).
  - reflexivity.
  - apply Demo_subtle_contract.
  - simpl. lia.
  - reflexivity.
  - split; [simpl; lia|reflexivity].
Defined.

(** X9.  The calls of [digest], [deriveBits] and [sign] made by a valid
    call, with the iteration count and the bit length below [2^32], are, in
    this order: one [digest] (the salt), one [deriveBits], and
    [1 + (length - 2) / 32] times [sign] under the derived key (the shuffle's
    stream).  The log does not record the [importKey] that precedes each
    [deriveBits] and [sign]. *)
Theorem X9_primitive_invocations
    (H : Host) (sc : SubtleCrypto) (masterPhrase : jsstring) (number : Z)
    (options : GenerateOptions) :
  provider H = Some sc -> WebCryptoContract sc ->
  8 <= default 20 (o_length options) ->
  default 20 (o_length options) * 16 < 2 ^ 32 ->
  100000 <= default 600000 (o_iterations options) < 2 ^ 32 ->
  forall log, exists password signs,
    generatePassword H masterPhrase number options log
    = (inr password,
       log ++ EvDigest (encode (payload H (default [] (o_context options)) number))
           :: EvDeriveBits (encode (normText H masterPhrase))
                (salt_of H sc (default [] (o_context options)) number)
                (default 600000 (o_iterations options))
                (Z.max 512 (default 20 (o_length options) * 16))
           :: signs)
    /\ signs
       = shuffle_events sc
           (keyBytes_of H sc masterPhrase number (default [] (o_context options))
              (default 20 (o_length options)) (default 600000 (o_iterations options)))
           (length signs)
    /\ Z.of_nat (length signs) = 1 + (default 20 (o_length options) - 2) / 32.
Proof.
  intros Hsc Hc Hlen _ Hit log.
  destruct (generatePassword_exact H sc masterPhrase number options Hsc Hc Hit Hlen)
    as (password & Hruns & _).
  set (len := default 20 (o_length options)) in *.
  assert (Hcount : length (shuffle_events sc
                     (keyBytes_of H sc masterPhrase number (default [] (o_context options))
                        len (default 600000 (o_iterations options)))
                     (shuffle_blocks (Z.to_nat len)))
                   = shuffle_blocks (Z.to_nat len)).
  { unfold shuffle_events. by rewrite length_fmap, length_seq. }
  exists password. eexists. split; [apply Hruns|].
  split; [by rewrite Hcount|].
  rewrite Hcount. unfold shuffle_blocks.
  destruct (Z.to_nat len) as [|[|n]] eqn:Hn; [lia..|].
  rewrite Nat2Z.inj_add, Nat2Z.inj_div. simpl Z.of_nat.
  replace (len - 2) with (Z.of_nat n) by lia. done.
Qed.

Lemma X9_primitive_invocations_witness :
  exists password signs,
    generatePassword Demo.host (js "correct horse battery staple") 1
      (Demo.options 130 100000) []
    = (inr password,
       [] ++ EvDigest (encode (payload Demo.host (js "example.com") 1))
          :: EvDeriveBits (encode (normText Demo.host (js "correct horse battery staple")))
               (salt_of Demo.host Demo.subtle (js "example.com") 1)
               100000 (Z.max 512 (130 * 16))
          :: signs)
    /\ signs
       = shuffle_events Demo.subtle
           (keyBytes_of Demo.host Demo.subtle (js "correct horse battery staple") 1
              (js "example.com") 130 100000)
           (length signs)
    /\ Z.of_nat (length signs) = 1 + (130 - 2) / 32.
Proof.
  apply (X9_primitive_invocations Demo.host Demo.subtle
           (js "correct horse battery staple") 1 (Demo.options 130 100000)).
  - reflexivity.
  - apply Demo_subtle_contract.
  - simpl. lia.
  - reflexivity.
  - split; [simpl; lia|reflexivity].
Defined.

(** X17.  An iteration count of [2^32] or more passes the floor and is then
    refused by the call of [deriveBits], whose [iterations] is a 32-bit
    unsigned number: the call fails with a [TypeError] after the salt has
    been hashed, for every length, a short one included, and before the
    mapper and the shuffle. *)
Theorem X17_iterations_out_of_range
    (H : Host) (sc : SubtleCrypto) (masterPhrase : jsstring) (number : Z)
    (options : GenerateOptions) :
  provider H = Some sc ->
  2 ^ 32 <= default 600000 (o_iterations options) ->
  forall log,
    generatePassword H masterPhrase number options log
    = (inl (TypeError (engine_message H "TypeError")),
       log ++ [EvDigest (encode (payload H (default [] (o_context options)) number));
               EvDeriveBits (encode (normText H masterPhrase))
                 (salt_of H sc (default [] (o_context options)) number)
                 (default 600000 (o_iterations options))
                 (Z.max 512 (default 20 (o_length options) * 16))]).
Proof.
  intros Hsc Hmax log.
  apply (generatePassword_out_of_range H masterPhrase number options sc Hsc Hmax).
Qed.

Lemma X17_iterations_out_of_range_witness :
  generatePassword Demo.host (js "correct horse battery staple") 1
    (Demo.options 7 4294967296) []
  = (inl (TypeError (engine_message Demo.host "TypeError")),
     [] ++ [EvDigest (encode (payload Demo.host (js "example.com") 1));
            EvDeriveBits (encode (normText Demo.host (js "correct horse battery staple")))
              (salt_of Demo.host Demo.subtle (js "example.com") 1)
              4294967296 (Z.max 512 (7 * 16))]).
Proof.
  apply (X17_iterations_out_of_range Demo.host Demo.subtle
           (js "correct horse battery staple") 1 (Demo.options 7 4294967296)).
  - reflexivity.
  - simpl. lia.
Defined.

(** X10.  On a host without Web Crypto a call with a valid iteration count
    fails with the environment error before any primitive runs, whatever the
    length: the missing provider is noticed before a short length is. *)
Theorem X10_no_provider
    (H : Host) (masterPhrase : jsstring) (number : Z) (options : GenerateOptions) :
  provider H = None ->
  100000 <= default 600000 (o_iterations options) ->
  forall log,
    generatePassword H masterPhrase number options log = (inl EnvironmentError, log).
Proof.
  intros Hnone Hit log.
  rewrite (generatePassword_no_provider H masterPhrase number options Hnone Hit).
  by rewrite app_nil_r.
Qed.

Lemma X10_no_provider_witness :
  generatePassword Demo.bare_host (js "correct horse battery staple") 1
    (Demo.options 7 100000) [] = (inl EnvironmentError, []).
Proof.
  apply (X10_no_provider Demo.bare_host (js "correct horse battery staple") 1
           (Demo.options 7 100000)).
  - reflexivity.
  - simpl. lia.
Defined.

(** X11.  The salt's payload separates its two fields: when the string forms
    of the rotation numbers hold no vertical bar, as the string form of a
    number never does, equal payloads come from equal normalized contexts
    and equal normalized numbers. *)
Theorem X11_payload_separates_fields
    (H : Host) (context1 context2 : jsstring) (number1 number2 : Z) :
  0x7C ∉ normText H (Number_toString H number1) ->
  0x7C ∉ normText H (Number_toString H number2) ->
  payload H context1 number1 = payload H context2 number2 ->
  normText H context1 = normText H context2
  /\ normText H (Number_toString H number1) = normText H (Number_toString H number2).
Proof.
  intros Hn1 Hn2 Heq. unfold payload in Heq.
  apply app_inv_head, app_inv_head in Heq.
  change (js "|" ++ ?s) with (0x7C :: s) in Heq.
  by destruct (not_elem_of_app_cons_inv_r _ _ _ _ _ _ Hn2 Hn1 Heq) as (? & _ & ?).
Qed.

Lemma X11_payload_separates_fields_witness :
  normText Demo.host (js " example.com") = normText Demo.host (js "example.com")
  /\ normText Demo.host (Number_toString Demo.host 7)
     = normText Demo.host (Number_toString Demo.host 7).
Proof.
  apply (X11_payload_separates_fields Demo.host (js " example.com") (js "example.com") 7 7).
  - vm_compute. intros Hin. by repeat (apply elem_of_cons in Hin as [?|Hin]; [done|]);
      apply elem_of_nil in Hin.
  - vm_compute. intros Hin. by repeat (apply elem_of_cons in Hin as [?|Hin]; [done|]);
      apply elem_of_nil in Hin.
  - reflexivity.
Defined.

(** ** The reduction modulo the alphabet size *)

Lemma all_bytes_complete (b : byte) : all_bytes !! Z.to_nat (Z_of_byte b) = Some b.
Proof. by destruct b. Qed.

(** X12.  The fill is not uniform over the combined alphabet: of the 256
    values of a key byte, three select each of the first 78 characters and
    two select each of the last 11, since 256 = 2 * 89 + 78. *)
Theorem X12_fill_modulo_bias (i : nat) (c : Z) :
  COMBINED !! i = Some c ->
  length all_bytes = 256%nat
  /\ (forall b, b ∈ all_bytes)
  /\ length (filter (fun b => pick [b] COMBINED 4 = Some c) all_bytes)
     = (if decide (i < 78)%nat then 3 else 2)%nat.
Proof.
  intros Hi. split; [done|]. split.
  { intros b. eapply list_elem_of_lookup_2, all_bytes_complete. }
  assert (Hall : forallb
            (fun i => match COMBINED !! i with
                      | Some c =>
                          Nat.eqb
                            (length (filter (fun b => pick [b] COMBINED 4 = Some c) all_bytes))
                            (if decide (i < 78)%nat then 3 else 2)
                      | None => true
                      end) (seq 0 89) = true) by (vm_compute; reflexivity).
  rewrite forallb_forall in Hall.
  assert (Hlt : (i < 89)%nat) by (by apply lookup_lt_Some in Hi).
  specialize (Hall i ltac:(apply in_seq; lia)).
  rewrite Hi in Hall. by apply Nat.eqb_eq in Hall.
Qed.

Lemma X12_fill_modulo_bias_witness :
  length all_bytes = 256%nat
  /\ (forall b, b ∈ all_bytes)
  /\ length (filter (fun b => pick [b] COMBINED 4 = Some 0x7E) all_bytes)
     = (if decide (88 < 78)%nat then 3 else 2)%nat.
Proof. apply (X12_fill_modulo_bias 88 0x7E). reflexivity. Defined.

(** ** The command line *)

Lemma list_pair_ind {A} (P : list A -> Prop) :
  P [] -> (forall x, P [x]) -> (forall x y l, P l -> P (x :: y :: l)) ->
  forall l, P l.
Proof.
  intros Hnil Hone Hstep l.
  assert (Hboth : P l /\ forall x, P (x :: l)); [|by destruct Hboth].
  induction l as [|y l [IH1 IH2]]; [by split|].
  split; [apply IH2|]. intros x. by apply Hstep.
Qed.

Lemma startsWith_dashes (k name : jsstring) :
  startsWith k (js "--") = true /\ drop 2 k = name <-> k = js "--" ++ name.
Proof.
  unfold startsWith. rewrite bool_decide_eq_true. split.
  - intros [Htake <-]. change (length (js "--")) with 2%nat in Htake.
    rewrite <- (take_drop 2 k) at 1. by rewrite Htake.
  - by intros ->.
Qed.

Lemma cli_args_step (k v : jsstring) (rest : list jsstring) args (name : jsstring) :
  exists args',
    cli_args (k :: v :: rest) args = cli_args rest args'
    /\ (k = js "--" ++ name -> args' !! name = Some v)
    /\ (k <> js "--" ++ name -> args' !! name = args !! name).
Proof.
  eexists. split; [reflexivity|].
  destruct (startsWith k (js "--")) eqn:Hstart.
  - split.
    + intros Hk. apply startsWith_dashes in Hk as [_ ->]. apply lookup_insert_eq.
    + intros Hk. apply lookup_insert_ne. intros Hdrop. apply Hk.
      by apply startsWith_dashes.
  - split; [|done].
    intros Hk. apply startsWith_dashes in Hk as [Hk _]. congruence.
Qed.

(** X13.  Flags are read in pairs from the start of the arguments: a value
    is bound to a name only by a token [--name] at an even position followed
    by that value.  A token at an odd position is never taken as a flag, a
    trailing flag without a value binds nothing. *)
Theorem X13_cli_args_aligned (rest : list jsstring) (name v : jsstring) :
  cli_args rest ∅ !! name = Some v ->
  exists i : nat,
    rest !! (2 * i)%nat = Some (js "--" ++ name)
    /\ rest !! (2 * i + 1)%nat = Some v.
Proof.
  assert (Hgen : forall args,
    cli_args rest args !! name = Some v ->
    args !! name = Some v
    \/ exists i : nat,
         rest !! (2 * i)%nat = Some (js "--" ++ name)
         /\ rest !! (2 * i + 1)%nat = Some v).
  { induction rest as [|k|k v' rest IH] using list_pair_ind; intros args Hlookup;
      [by left..|].
    destruct (cli_args_step k v' rest args name) as (args' & Hstep & Hhit & Hmiss).
    rewrite Hstep in Hlookup.
    destruct (IH args' Hlookup) as [Hargs'|(i & Hk & Hv)].
    - destruct (decide (k = js "--" ++ name)) as [->|Hne].
      + right. exists 0%nat. rewrite Hhit in Hargs' by done. by simplify_eq.
      + left. by rewrite <- Hmiss.
    - right. exists (S i).
      replace (2 * S i)%nat with (S (S (2 * i))) by lia.
      replace (S (S (2 * i)) + 1)%nat with (S (S (2 * i + 1))) by lia.
      done. }
  intros Hlookup. by destruct (Hgen ∅ Hlookup) as [Hempty|?].
Qed.

Lemma X13_cli_args_aligned_witness :
  exists i : nat,
    [js "--length"; js "30"; js "--context"; js "example.com"] !! (2 * i)%nat
    = Some (js "--" ++ js "context")
    /\ [js "--length"; js "30"; js "--context"; js "example.com"] !! (2 * i + 1)%nat
       = Some (js "example.com").
Proof.
  apply (X13_cli_args_aligned
           [js "--length"; js "30"; js "--context"; js "example.com"]
           (js "context") (js "example.com")).
  vm_compute. reflexivity.
Defined.

(** X14.  The last aligned occurrence of a flag wins: a pair [--name v] at
    an even position binds [name] to [v] unless a later aligned pair gives
    the same flag another value, whatever [args] held before. *)
Theorem X14_cli_args_last_wins
    (rest : list jsstring) (args : gmap jsstring jsstring) (name v : jsstring) (i : nat) :
  rest !! (2 * i)%nat = Some (js "--" ++ name) ->
  rest !! (2 * i + 1)%nat = Some v ->
  (forall (i' : nat) v',
      (i < i')%nat ->
      rest !! (2 * i')%nat = Some (js "--" ++ name) ->
      rest !! (2 * i' + 1)%nat = Some v' -> v' = v) ->
  cli_args rest args !! name = Some v.
Proof.
  assert (Hkeep : forall rest args,
    args !! name = Some v ->
    (forall (i' : nat) v',
        rest !! (2 * i')%nat = Some (js "--" ++ name) ->
        rest !! (2 * i' + 1)%nat = Some v' -> v' = v) ->
    cli_args rest args !! name = Some v).
  { clear. intros rest.
    induction rest as [|k|k v' rest IH] using list_pair_ind; intros args Hargs Hlater;
      [done..|].
    destruct (cli_args_step k v' rest args name) as (args' & -> & Hhit & Hmiss).
    apply IH.
    - destruct (decide (k = js "--" ++ name)) as [->|Hne].
      + rewrite Hhit by done. f_equal. by apply (Hlater 0%nat).
      + by rewrite Hmiss.
    - intros i' w Hk Hw. apply (Hlater (S i')).
      + by replace (2 * S i')%nat with (S (S (2 * i'))) by lia.
      + by replace (2 * S i' + 1)%nat with (S (S (2 * i' + 1))) by lia. }
  revert rest args.
  induction i as [|i IH]; intros rest args Hk Hv Hlater.
  - destruct rest as [|k [|v' rest]]; [done..|].
    assert (k = js "--" ++ name) as -> by (apply (inj Some); exact Hk).
    assert (v' = v) as -> by (apply (inj Some); exact Hv).
    destruct (cli_args_step (js "--" ++ name) v rest args name)
      as (args' & -> & Hhit & _).
    apply Hkeep; [by apply Hhit|].
    intros i' w Hk' Hw. apply (Hlater (S i')); [lia|..].
    + by replace (2 * S i')%nat with (S (S (2 * i'))) by lia.
    + by replace (2 * S i' + 1)%nat with (S (S (2 * i' + 1))) by lia.
  - destruct rest as [|k [|v' rest]]; [done..|].
    replace (2 * S i)%nat with (S (S (2 * i))) in Hk by lia.
    replace (2 * S i + 1)%nat with (S (S (2 * i + 1))) in Hv by lia.
    destruct (cli_args_step k v' rest args name) as (args' & -> & _).
    apply IH; [done..|].
    intros i' w Hlt Hk' Hw. apply (Hlater (S i')); [lia|..].
    + by replace (2 * S i')%nat with (S (S (2 * i'))) by lia.
    + by replace (2 * S i' + 1)%nat with (S (S (2 * i' + 1))) by lia.
Qed.

Lemma X14_cli_args_last_wins_witness :
  cli_args [js "--length"; js "30"; js "--length"; js "40"; js "--length"] ∅
    !! js "length" = Some (js "40").
Proof.
  apply (X14_cli_args_last_wins
           [js "--length"; js "30"; js "--length"; js "40"; js "--length"] ∅
           (js "length") (js "40") 1).
  - reflexivity.
  - reflexivity.
  - intros i' v' Hlt Hk Hv. destruct i' as [|[|[|i']]]; [lia|lia| |].
    + cbv in Hv. discriminate Hv.
    + replace (2 * S (S (S i')))%nat with (S (S (S (S (S (S (2 * i'))))))) in Hk by lia.
      cbn [lookup list_lookup] in Hk. discriminate Hk.
Defined.

(** ** The form *)

(** X15.  A click on the enabled Generate button, with the slider at 8 or
    more, ends with a password of the slider's length in [result], covering
    the four classes, an empty [error] and [busy] false; the other fields of
    the state are untouched. *)
Theorem X15_click_shows_password (H : Host) (sc : SubtleCrypto) (st : AppState) :
  provider H = Some sc -> WebCryptoContract sc ->
  text st <> [] -> busy st = false -> 8 <= app_length st ->
  forall log, exists password log',
    click_generate H st log
    = ({| text := text st; result := password; busy := false; error := EmptyString;
          app_length := app_length st; copied := copied st;
          showMaster := showMaster st |}, log')
    /\ Z.of_nat (length password) = app_length st
    /\ covers_all_classes password = true.
Proof.
  intros Hsc Hc Htext Hbusy Hlen log.
  destruct (generatePassword_exact H sc (text st) 1
              {| o_context := Some []; o_length := Some (app_length st);
                 o_iterations := Some 600000 |} Hsc Hc
              ltac:(split; [simpl; lia|reflexivity]) Hlen)
    as (password & Hruns & Hperm).
  exists password. eexists. split; [|split].
  - unfold click_generate, generate_disabled.
    rewrite bool_decide_eq_false_2, Hbusy by done.
    unfold onClick_generate. cbn [text app_length orb]. by rewrite Hruns.
  - rewrite Hperm, length_mapped by done. simpl. lia.
  - by eapply mapped_covers.
Qed.

Lemma X15_click_shows_password_witness :
  exists password log',
    click_generate Demo.host
      {| text := js "correct horse battery staple"; result := js "old";
         busy := false; error := "stale"; app_length := 30; copied := false;
         showMaster := false |} []
    = ({| text := js "correct horse battery staple"; result := password;
          busy := false; error := EmptyString; app_length := 30; copied := false;
          showMaster := false |}, log')
    /\ Z.of_nat (length password) = 30
    /\ covers_all_classes password = true.
Proof.
  apply (X15_click_shows_password Demo.host Demo.subtle
           {| text := js "correct horse battery staple"; result := js "old";
              busy := false; error := "stale"; app_length := 30; copied := false;
              showMaster := false |}).
  - reflexivity.
  - apply Demo_subtle_contract.
  - done.
  - reflexivity.
  - simpl. lia.
Defined.

(** X16.  On a host without Web Crypto a click on the enabled button clears
    a password shown before, reports the message of the environment error in
    [error] and ends with [busy] false, without a primitive having run. *)
Theorem X16_click_reports_missing_provider (H : Host) (st : AppState) :
  provider H = None -> text st <> [] -> busy st = false ->
  forall log,
    click_generate H st log
    = ({| text := text st; result := []; busy := false;
          error := "Web Crypto API not available. In Node, use v18+; in browser/Tauri, use a modern runtime.";
          app_length := app_length st; copied := copied st;
          showMaster := showMaster st |}, log).
Proof.
  intros Hnone Htext Hbusy log.
  unfold click_generate, generate_disabled.
  rewrite bool_decide_eq_false_2, Hbusy by done.
  unfold onClick_generate. cbn [text app_length orb].
  rewrite (generatePassword_no_provider H (text st) 1
             {| o_context := Some []; o_length := Some (app_length st);
                o_iterations := Some 600000 |} Hnone ltac:(simpl; lia)).
  by rewrite app_nil_r.
Qed.

Lemma X16_click_reports_missing_provider_witness :
  click_generate Demo.bare_host
    {| text := js "correct horse battery staple"; result := js "old";
       busy := false; error := EmptyString; app_length := 30; copied := false;
       showMaster := false |} []
  = ({| text := js "correct horse battery staple"; result := []; busy := false;
        error := "Web Crypto API not available. In Node, use v18+; in browser/Tauri, use a modern runtime.";
        app_length := 30; copied := false; showMaster := false |}, []).
Proof.
  apply (X16_click_reports_missing_provider Demo.bare_host
           {| text := js "correct horse battery staple"; result := js "old";
              busy := false; error := EmptyString; app_length := 30; copied := false;
              showMaster := false |}).
  - reflexivity.
  - done.
  - reflexivity.
Defined.
